(** * TK700 control dashboard: power state machine, HTTP handlers and pollers

    A shallow embedding of the server's power state machine and request
    handlers (the server entry module) and of the dashboard's polling
    streams ([src/lib/poller.ts]), with the properties the specification
    states about them. *)

From Stdlib Require Import ZArith QArith Qround List Bool Lia.
From stdpp Require Import base option list strings gmap.
Import ListNotations.

Local Open Scope Z_scope.

(** ** JavaScript numbers, as far as the server uses them

    Timestamps come from [Date.now()] and are whole milliseconds; seconds are
    obtained by dividing by 1000. The only non-finite values the code can
    produce are the two infinities ([Infinity] is written out in
    [calculateTimeSinceTransition], and [30 - Infinity] is [-Infinity]). *)

Inductive number : Type :=
  | Fin (q : Q)
  | PosInf
  | NegInf.

(** [a - b], for a finite [a]. *)
Definition number_sub (a : Q) (b : number) : number :=
  match b with
  | Fin q => Fin (a - q)%Q
  | PosInf => NegInf
  | NegInf => PosInf
  end.

(** [a < b], for a finite [b]. *)
Definition number_ltb (a : number) (b : Q) : bool :=
  match a with
  | Fin q => negb (Qle_bool b q)
  | PosInf => false
  | NegInf => true
  end.

Definition Math_ceil (a : number) : number :=
  match a with
  | Fin q => Fin (inject_Z (Qceiling q))
  | PosInf => PosInf
  | NegInf => NegInf
  end.

(** [Math.max(a, b)], for a finite [a]. *)
Definition Math_max (a : Q) (b : number) : number :=
  match b with
  | Fin q => if Qle_bool a q then Fin q else Fin a
  | PosInf => PosInf
  | NegInf => Fin a
  end.

(** ** fp-ts values

    [Either] as in [fp-ts/Either]; an [Error] is represented by its message.
    [Option<A>] and [A | null] are both Rocq options, so [O.fromNullable] and
    [O.toNullable] are the identity. *)

Inductive Either (L A : Type) : Type :=
  | Left (e : L)
  | Right (a : A).
Arguments Left {L A} e.
Arguments Right {L A} a.

Definition Error : Type := string.

Module E.
Definition map {L A B} (f : A -> B) (fa : Either L A) : Either L B :=
  match fa with
  | Left e => Left e
  | Right a => Right (f a)
  end.

Definition getOrElse {L A} (onLeft : L -> A) (fa : Either L A) : A :=
  match fa with
  | Left e => onLeft e
  | Right a => a
  end.

Definition isRight {L A} (fa : Either L A) : bool :=
  match fa with
  | Left _ => false
  | Right _ => true
  end.
End E.

Module O.
Definition fromNullable {A} (a : option A) : option A := a.
Definition toNullable {A} (a : option A) : option A := a.

Definition map {A B} (f : A -> B) (fa : option A) : option B :=
  match fa with
  | Some a => Some (f a)
  | None => None
  end.

Definition getOrElse {A} (onNone : unit -> A) (fa : option A) : A :=
  match fa with
  | Some a => a
  | None => onNone tt
  end.
End O.

(** ** Power state machine *)

Inductive PowerState : Type :=
  | OFF
  | WARMING_UP
  | ON
  | COOLING_DOWN
  | UNKNOWN.

Definition PowerState_eqb (a b : PowerState) : bool :=
  match a, b with
  | OFF, OFF | WARMING_UP, WARMING_UP | ON, ON
  | COOLING_DOWN, COOLING_DOWN | UNKNOWN, UNKNOWN => true
  | _, _ => false
  end.

#[global] Instance PowerState_eq_dec : EqDecision PowerState.
Proof. solve_decision. Defined.

(** [number | null] fields are options; a timestamp is a whole number of
    milliseconds. *)
Record PowerStateData : Type := mkPowerStateData {
  powerOn : option bool;
  state : PowerState;
  transitionStartTime : option Z
}.

(** [PowerStateInfo] extends [PowerStateData]: the snapshot's fields and the
    derived [remainingSeconds]. *)
Record PowerStateInfo : Type := mkPowerStateInfo {
  snapshot : PowerStateData;
  remainingSeconds : number
}.

Definition WARMING_UP_TIME_SECONDS : Q := 30.
Definition COOLING_DOWN_TIME_SECONDS : Q := 90.

Definition initialState : PowerStateData :=
  {| powerOn := None; state := UNKNOWN; transitionStartTime := None |}.

(** [now] is the value of [Date.now()] at the call. The condition
    [startTime ? ... : Infinity] tests truthiness: [null] is falsy, and so is
    the number [0]. *)
Definition calculateTimeSinceTransition (now : Z) (startTime : option Z) : number :=
  match startTime with
  | Some t => if t =? 0 then PosInf else Fin (inject_Z (now - t) / 1000)
  | None => PosInf
  end.

Definition inferPowerState (now : Z) (current : PowerStateData) (on : bool) : PowerState :=
  let timeSinceTransition := calculateTimeSinceTransition now (transitionStartTime current) in
  if PowerState_eqb (state current) WARMING_UP
     && number_ltb timeSinceTransition WARMING_UP_TIME_SECONDS
  then WARMING_UP
  else if PowerState_eqb (state current) COOLING_DOWN
          && number_ltb timeSinceTransition COOLING_DOWN_TIME_SECONDS
  then COOLING_DOWN
  else if on then ON else OFF.

Definition shouldResetTransition (currentState newState : PowerState) : bool :=
  negb (PowerState_eqb newState currentState)
  && (PowerState_eqb newState ON || PowerState_eqb newState OFF).

Definition updateFromProjector (now : Z) (current : PowerStateData)
    (reading : option bool) : PowerStateData :=
  O.getOrElse (fun _ => current)
    (O.map
       (fun on =>
          let newState := inferPowerState now current on in
          {| powerOn := Some on;
             state := newState;
             transitionStartTime :=
               if shouldResetTransition (state current) newState
               then None
               else transitionStartTime current |})
       (O.fromNullable reading)).

Definition initiateTransition (now : Z) (current : PowerStateData)
    (targetOn : bool) : PowerStateData :=
  let canTurnOn := PowerState_eqb (state current) OFF in
  let canTurnOff := PowerState_eqb (state current) ON in
  if targetOn && canTurnOn then
    {| powerOn := Some targetOn; state := WARMING_UP; transitionStartTime := Some now |}
  else if negb targetOn && canTurnOff then
    {| powerOn := Some targetOn; state := COOLING_DOWN; transitionStartTime := Some now |}
  else current.

Definition calculateRemainingSeconds (now : Z) (s : PowerStateData) : number :=
  match transitionStartTime s with
  | None => Fin 0
  | Some _ =>
      let timeSinceTransition := calculateTimeSinceTransition now (transitionStartTime s) in
      let totalTime :=
        if PowerState_eqb (state s) WARMING_UP
        then WARMING_UP_TIME_SECONDS else COOLING_DOWN_TIME_SECONDS in
      Math_max 0 (Math_ceil (number_sub totalTime timeSinceTransition))
  end.

Definition enrichWithRemainingSeconds (now : Z) (s : PowerStateData) : PowerStateInfo :=
  {| snapshot := s; remainingSeconds := calculateRemainingSeconds now s |}.

(** ** Request bodies

    The value [c.req.json()] resolves to. A JavaScript object is a finite map
    from property names to values; a finite number is the rational it
    denotes. *)

#[warnings="-register-all"]
Inductive json : Type :=
  | JNull
  | JBool (b : bool)
  | JNum (q : Q)
  | JStr (s : string)
  | JArr (l : list json)
  | JObj (m : gmap string json).

(** The result of evaluating an expression: [None] is [undefined]. *)
Definition jsval : Type := option json.

Definition truthy (v : jsval) : bool :=
  match v with
  | None => false
  | Some JNull => false
  | Some (JBool b) => b
  | Some (JNum q) => negb (Qeq_bool q 0)
  | Some (JStr s) => negb (String.eqb s "")
  | Some (JArr _) => true
  | Some (JObj _) => true
  end.

(** [body.name]: reading a property of [null] throws a [TypeError]; the
    primitive and array prototypes have neither a [direction] nor a [value]
    property, so there the read gives [undefined]. *)
Definition getProperty (body : json) (name : string) : Either Error jsval :=
  match body with
  | JNull => Left "TypeError: null is not an object"%string
  | JObj m => Right (m !! name)
  | _ => Right None
  end.

(** ** The device client, as the handlers see it

    [TK700Client] lives in its own module; the handlers only create a task
    per operation and await it. A command is indexed by the type of its
    result. *)

Inductive command : Type -> Type :=
  | getPowerStatus : command (option bool)
  | setPower (on : bool) : command unit
  | adjustBrightness (direction : jsval) : command unit
  | setBrightness (value : jsval) : command unit.

Inductive issued : Type :=
  | Issued {A} (cmd : command A).

(** ** Handler programs

    A handler is a program that reads the clock, runs [IO] actions of the
    power state manager, awaits device tasks, and returns or throws. *)

Definition IO (A : Type) : Type := PowerStateData -> A * PowerStateData.

Module IOM.
Definition map {A B} (f : A -> B) (io : IO A) : IO B :=
  fun s => let '(a, s') := io s in (f a, s').
End IOM.

Inductive prog (R : Type) : Type :=
  | Ret (r : R)
  | Throw (e : Error)
  | DateNow (k : Z -> prog R)
  | RunIO {A} (io : IO A) (k : A -> prog R)
  | Await {A} (cmd : command A) (k : Either Error A -> prog R).
Arguments Ret {R} r.
Arguments Throw {R} e.
Arguments DateNow {R} k.
Arguments RunIO {R A} io k.
Arguments Await {R A} cmd k.

Fixpoint bind {R S} (p : prog R) (f : R -> prog S) : prog S :=
  match p with
  | Ret r => f r
  | Throw e => Throw e
  | DateNow k => DateNow (fun now => bind (k now) f)
  | RunIO io k => RunIO io (fun a => bind (k a) f)
  | Await cmd k => Await cmd (fun r => bind (k r) f)
  end.

Declare Scope prog_scope.
Delimit Scope prog_scope with prog.
Notation "'let*' x ':=' p 'in' q" := (bind p (fun x => q))
  (at level 10, x name, p at level 100, q at level 200) : prog_scope.
Local Open Scope prog_scope.

Definition dateNow : prog Z := DateNow Ret.
Definition runIO {A} (io : IO A) : prog A := RunIO io Ret.
Definition await {A} (cmd : command A) : prog (Either Error A) := Await cmd Ret.

(** *** makePowerStateManager *)

Definition getState : IO PowerStateData := fun s => (s, s).

Definition getStateInfo (now : Z) : IO PowerStateInfo :=
  IOM.map (enrichWithRemainingSeconds now) getState.

Definition modifyState (f : PowerStateData -> PowerStateData) : IO PowerStateData :=
  fun s => (f s, f s).

Definition updateFromProjectorStatus (now : Z) (reading : option bool) : IO PowerStateData :=
  modifyState (fun current => updateFromProjector now current reading).

Definition initiateTransitionTo (now : Z) (targetOn : bool) : IO PowerStateData :=
  modifyState (fun current => initiateTransition now current targetOn).

(** *** Responses *)

Record ApiResponse (A : Type) : Type := mkApiResponse {
  error : option string;
  data : option A
}.
Arguments mkApiResponse {A} error data.
Arguments error {A} _.
Arguments data {A} _.

Record Response (A : Type) : Type := mkResponse {
  body : ApiResponse A;
  status : Z
}.
Arguments mkResponse {A} body status.
Arguments body {A} _.
Arguments status {A} _.

(** Modelled from the spec: [AT.toApiResponse] of [lib/apiTask], which is not
    among the sources. Every response is wrapped as [{ error, data }]; a
    failure has [error] set and no data. *)
Definition toApiResponse {A} (r : Either Error A) : ApiResponse A :=
  match r with
  | Left e => {| error := Some e; data := None |}
  | Right a => {| error := None; data := Some a |}
  end.

(** [response.error ? 500 : 200]: a string is truthy unless it is empty. *)
Definition truthy_string (s : option string) : bool :=
  match s with
  | Some e => negb (String.eqb e "")
  | None => false
  end.

Definition handleTask {A} (task : command A) : prog (Response A) :=
  let* r := await task in
  let response := toApiResponse r in
  Ret {| body := response; status := if truthy_string (error response) then 500 else 200 |}.

(** *** Routes *)

(** [app.get('/api/power-state')] *)
Definition getPowerStateRoute : prog (Response PowerStateInfo) :=
  let* powerStatus := await getPowerStatus in
  let reading := E.getOrElse (fun _ => None) (E.map O.toNullable powerStatus) in
  let* now := dateNow in
  let* _ := runIO (updateFromProjectorStatus now reading) in
  let* now' := dateNow in
  let* info := runIO (getStateInfo now') in
  Ret {| body := {| error := None; data := Some info |}; status := 200 |}.

(** [app.post('/api/power')], with [on] the field of the request body. *)
Definition postPowerRoute (on : bool) : prog (Response unit) :=
  let* now := dateNow in
  let* _ := runIO (initiateTransitionTo now on) in
  handleTask (setPower on).

(** Lifting a property read into a handler: a [TypeError] is thrown. *)
Definition property (body : json) (name : string) : prog jsval :=
  match getProperty body name with
  | Left e => Throw e
  | Right v => Ret v
  end.

(** [app.post('/api/brightness')], with [body] the parsed request body. *)
Definition postBrightnessRoute (body : json) : prog (Response unit) :=
  let* direction := property body "direction" in
  if truthy direction then
    handleTask (adjustBrightness direction)
  else
    let* value := property body "value" in
    if bool_decide (value ≠ None) then
      handleTask (setBrightness value)
    else
      Ret {| body := {| error := Some "Invalid request"%string; data := None |};
             status := 400 |}.

(** *** Running a handler

    The environment gives the successive readings of [Date.now()] and the
    outcome of each device task; the server keeps the manager's snapshot and,
    for the record, the commands issued, each with the snapshot the manager
    held when the command went out. *)

Record Env : Type := mkEnv {
  clock : nat -> Z;
  device : forall A, command A -> Either Error A
}.

Record Server : Type := mkServer {
  manager : PowerStateData;
  clockReads : nat;
  issuedLog : list (issued * PowerStateData)
}.

Inductive outcome (R : Type) : Type :=
  | Returned (r : R)
  | Thrown (e : Error).
Arguments Returned {R} r.
Arguments Thrown {R} e.

Fixpoint run {R} (env : Env) (p : prog R) (w : Server) : outcome R * Server :=
  match p with
  | Ret r => (Returned r, w)
  | Throw e => (Thrown e, w)
  | DateNow k =>
      run env (k (clock env (clockReads w)))
          {| manager := manager w; clockReads := S (clockReads w); issuedLog := issuedLog w |}
  | RunIO io k =>
      let '(a, s') := io (manager w) in
      run env (k a) {| manager := s'; clockReads := clockReads w; issuedLog := issuedLog w |}
  | Await cmd k =>
      run env (k (device env _ cmd))
          {| manager := manager w; clockReads := clockReads w;
             issuedLog := issuedLog w ++ [(Issued cmd, manager w)] |}
  end.

Definition startServer : Server :=
  {| manager := initialState; clockReads := 0; issuedLog := [] |}.

(** ** Histories of the power state machine *)

Inductive event : Type :=
  | ObserveReading (now : Z) (reading : option bool)
  | RequestTransition (now : Z) (targetOn : bool).

Definition step (s : PowerStateData) (ev : event) : PowerStateData :=
  match ev with
  | ObserveReading now reading => updateFromProjector now s reading
  | RequestTransition now targetOn => initiateTransition now s targetOn
  end.

Definition runEvents (evs : list event) : PowerStateData :=
  fold_left step evs initialState.

Inductive reachable : PowerStateData -> Prop :=
  | reach_initial : reachable initialState
  | reach_step s ev : reachable s -> reachable (step s ev).

Definition transitioning (s : PowerStateData) : bool :=
  PowerState_eqb (state s) WARMING_UP || PowerState_eqb (state s) COOLING_DOWN.

(** The timer is set exactly in the two transitional states. *)
Definition timer_invariant (s : PowerStateData) : Prop :=
  transitionStartTime s <> None <-> (state s = WARMING_UP \/ state s = COOLING_DOWN).

(** ** The state machine in the specification's words *)

Module Spec.

(** Elapsed seconds since the transition started, infinite if none is set. *)
Definition elapsed (now : Z) (startTime : option Z) : number :=
  match startTime with
  | Some t => Fin (inject_Z (now - t) / 1000)
  | None => PosInf
  end.

Definition resolve (now : Z) (current : PowerStateData) (on : bool) : PowerState :=
  match state current with
  | WARMING_UP =>
      if number_ltb (elapsed now (transitionStartTime current)) 30
      then WARMING_UP else if on then ON else OFF
  | COOLING_DOWN =>
      if number_ltb (elapsed now (transitionStartTime current)) 90
      then COOLING_DOWN else if on then ON else OFF
  | _ => if on then ON else OFF
  end.

Definition observeReading (now : Z) (current : PowerStateData)
    (reading : option bool) : PowerStateData :=
  match reading with
  | None => current
  | Some on =>
      let resolved := resolve now current on in
      {| powerOn := Some on;
         state := resolved;
         transitionStartTime :=
           if bool_decide (resolved <> state current /\ (resolved = ON \/ resolved = OFF))
           then None else transitionStartTime current |}
  end.

(** 30s for [WARMING_UP], 90s for [COOLING_DOWN]; the specification names no
    duration for the other states, where no timer is set. *)
Definition phaseDuration (s : PowerState) : Q :=
  match s with
  | WARMING_UP => 30
  | _ => 90
  end.

Definition remainingSeconds (now : Z) (s : PowerStateData) : Z :=
  match transitionStartTime s with
  | None => 0
  | Some t =>
      Z.max 0 (Qceiling (phaseDuration (state s) - inject_Z (now - t) / 1000))
  end.

End Spec.

(** ** Reading the brightness request *)

(** The value of [body.name] for a body other than [null]. *)
Definition field (body : json) (name : string) : jsval :=
  match body with
  | JObj m => m !! name
  | _ => None
  end.

(** The request body contains a field of that name. *)
Definition hasField (body : json) (name : string) : bool :=
  bool_decide (field body name <> None).

(** The commands a handler run has added to the log. *)
Definition dispatches {R A} (res : outcome R * Server) (w : Server) (cmd : command A) : Prop :=
  issuedLog (snd res) = issuedLog w ++ [(Issued cmd, manager w)].

Definition respondsWith {R} (res : outcome (Response R) * Server) (code : Z) : Prop :=
  exists r, fst res = Returned r /\ status r = code.

(** The brightness route as the interface table words it: [400] exactly when
    neither field is present, [adjustBrightness] when [direction] is present,
    [setBrightness] when [value] is present. *)
Definition brightness_by_presence (env : Env) (w : Server) (body : json) : Prop :=
  let res := run env (postBrightnessRoute body) w in
  (respondsWith res 400 <->
     hasField body "direction" = false /\ hasField body "value" = false)
  /\ (hasField body "direction" = true ->
        dispatches res w (adjustBrightness (field body "direction")))
  /\ (hasField body "value" = true ->
        dispatches res w (setBrightness (field body "value"))).

(** Two devices for examples: one that fails every task, one that
    acknowledges every command and reports the projector on. *)
Definition failingDevice : forall A, command A -> Either Error A :=
  fun _ _ => Left "ECONNREFUSED"%string.

Definition workingDevice : forall A, command A -> Either Error A :=
  fun _ cmd =>
    match cmd with
    | getPowerStatus => Right (Some true)
    | setPower _ => Right tt
    | adjustBrightness _ => Right tt
    | setBrightness _ => Right tt
    end.

(** The operation of the client behind a logged command. *)
Definition operation (i : issued) : string :=
  match i with
  | Issued getPowerStatus => "getPowerStatus"
  | Issued (setPower _) => "setPower"
  | Issued (adjustBrightness _) => "adjustBrightness"
  | Issued (setBrightness _) => "setBrightness"
  end.

(** * The dashboard's pollers

    ** Time, promises and tasks

    Time on the dashboard is a number of milliseconds. A promise is described
    by the time it takes to settle and by how it settles: fulfilled with a
    value ([Right]) or rejected with a reason ([Left]). A function
    [() => Promise<A>] is described by the promise each call returns, by the
    time of the call. *)

Local Open Scope nat_scope.

Definition Promise (A : Type) : Type := nat * Either Error A.

Definition Async (A : Type) : Type := nat -> Promise A.

(** A [Task<X>] is a function [() => Promise<X>]; a [TaskEither<Error, A>] is
    a [Task<Either<Error, A>>]. The promise of a task is meant never to be
    rejected, which its type does not say: [neverRejects] does. *)
Definition Task (X : Type) : Type := Async X.

Definition TaskEither (A : Type) : Type := Task (Either Error A).

Definition neverRejects {X} (task : Task X) : Prop :=
  forall t, exists x, snd (task t) = Right x.

Module TE.
(** The promise of [tryCatch(f, onRejected)] is fulfilled either way: with
    [right] of the value, or with [left] of what [onRejected] makes of the
    reason. *)
Definition tryCatch {A} (f : Async A) (onRejected : Error -> Error) : TaskEither A :=
  fun t =>
    let '(latency, r) := f t in
    (latency,
     Right match r with
           | Left reason => Left (onRejected reason)
           | Right a => Right a
           end).

Definition of_ {A} (a : A) : TaskEither A := fun _ => (0, Right (Right a)).

Definition map {A B} (f : A -> B) (task : TaskEither A) : TaskEither B :=
  fun t => let '(latency, r) := task t in (latency, E.map (E.map f) r).

Definition orElse {A} (onLeft : Error -> TaskEither A) (task : TaskEither A) : TaskEither A :=
  fun t =>
    let '(latency, r) := task t in
    match r with
    | Left rejection => (latency, Left rejection)
    | Right (Left e) => let '(latency', r') := onLeft e (t + latency) in (latency + latency', r')
    | Right (Right a) => (latency, Right (Right a))
    end.
End TE.

(** [task().then(f)]: a rejection passes through. *)
Definition then_ {X Y} (f : X -> Y) (task : Task X) : Task Y :=
  fun t => let '(latency, r) := task t in (latency, E.map f r).

(** [Promise.all] of three promises created at the same time: fulfilled when
    the last one is, rejected as soon as one is rejected (the first in array
    order among those rejected at the same instant). *)
Definition firstRejection {A B C} (a : Promise A) (b : Promise B) (c : Promise C)
    : option (nat * Error) :=
  let rejections :=
    match a with (l, Left e) => [(l, e)] | _ => [] end
    ++ match b with (l, Left e) => [(l, e)] | _ => [] end
    ++ match c with (l, Left e) => [(l, e)] | _ => [] end in
  foldr (fun x acc =>
           match acc with
           | Some y => if fst x <=? fst y then Some x else Some y
           | None => Some x
           end) None rejections.

Definition Promise_all {A B C} (a : Promise A) (b : Promise B) (c : Promise C)
    : Promise (A * B * C) :=
  match a, b, c with
  | (la, Right x), (lb, Right y), (lc, Right z) => (Nat.max la (Nat.max lb lc), Right (x, y, z))
  | _, _, _ =>
      match firstRejection a b c with
      | Some (l, e) => (l, Left e)
      | None => (0, Left ""%string)
      end
  end.

(** ** Observables

    An observable is described by what one subscription delivers: the values,
    with their times, that a subscription made at [t0] has delivered strictly
    before the instant [h], and the error that ended it before [h], if one
    did. An observable that has ended with an error delivers nothing more. *)

Record delivery (A : Type) : Type := mkDelivery {
  values : list (nat * A);
  failure : option (nat * Error)
}.
Arguments mkDelivery {A} values failure.
Arguments values {A} d.
Arguments failure {A} d.

Definition Observable (A : Type) : Type := nat -> nat -> delivery A.

Definition nothing {A} : delivery A := {| values := []; failure := None |}.

Definition view {A B} (f : A -> B) (evs : list (nat * A)) : list (nat * B) :=
  List.map (fun e => (fst e, f (snd e))) evs.

Module Rx.
(** [interval(period)]: the values 0, 1, 2, ... one period apart, the first
    one a period after the subscription. *)
Definition interval (period : nat) : Observable nat :=
  fun t0 h =>
    {| values := List.map (fun k => (t0 + S k * period, k)) (seq 0 ((h - t0 - 1) / period));
       failure := None |}.

(** [startWith(v)]: [v] at once on subscription, then the source. *)
Definition startWith {A} (v : A) (src : Observable A) : Observable A :=
  fun t0 h =>
    if t0 <? h
    then {| values := (t0, v) :: values (src t0 h); failure := failure (src t0 h) |}
    else nothing.

(** [of(v)]: [v] at once on subscription. *)
Definition of_ {A} (v : A) : Observable A :=
  fun t0 h => if t0 <? h then {| values := [(t0, v)]; failure := None |} else nothing.

(** A promise as an observable, which is what [switchMap] makes of a
    projection that returns a promise: the value when the promise is
    fulfilled, an error when it is rejected. The promise is created on
    subscription. *)
Definition from {A} (task : Task A) : Observable A :=
  fun t0 h =>
    let '(latency, r) := task t0 in
    if t0 + latency <? h
    then match r with
         | Right v => {| values := [(t0 + latency, v)]; failure := None |}
         | Left reason => {| values := []; failure := Some (t0 + latency, reason) |}
         end
    else nothing.

Definition map {A B} (f : A -> B) (src : Observable A) : Observable B :=
  fun t0 h => {| values := view f (values (src t0 h)); failure := failure (src t0 h) |}.

(** The flattening behind [switchMap]: each inner observable is subscribed
    when its outer value arrives and unsubscribed when the next one does; an
    error of the inner observable subscribed at the time ends the whole.

    The times do not tell what happens first when the inner observable
    subscribed at [t] has something due at the very instant [t'] of the next
    outer value: [tie t t'] tells whether that still goes through. (The first
    poll of a loop is started before the timer of the loop is, so a first
    poll that takes exactly one period goes through where timers fire in the
    order they were set.) *)
Fixpoint switchAll {B} (tie : nat -> nat -> bool) (outer : list (nat * Observable B))
    (h : nat) : delivery B :=
  match outer with
  | [] => nothing
  | (t, inner) :: rest =>
      let d := inner t (match rest with
                        | [] => h
                        | (t', _) :: _ => if tie t t' then S t' else t'
                        end) in
      match failure d with
      | Some f => d
      | None =>
          {| values := values d ++ values (switchAll tie rest h);
             failure := failure (switchAll tie rest h) |}
      end
  end.

(** An error of the source ends the inner observable as well. *)
Definition switchMap {A B} (tie : nat -> nat -> bool) (project : A -> Observable B)
    (src : Observable A) : Observable B :=
  fun t0 h =>
    let o := src t0 h in
    let d := switchAll tie (view project (values o)) (from_option fst h (failure o)) in
    {| values := values d;
       failure := match failure d with
                  | Some f => Some f
                  | None => failure o
                  end |}.

(** [distinctUntilChanged()] on booleans. *)
Fixpoint distinctFrom (previous : option bool) (evs : list (nat * bool)) : list (nat * bool) :=
  match evs with
  | [] => []
  | (t, v) :: rest =>
      if bool_decide (previous = Some v)
      then distinctFrom previous rest
      else (t, v) :: distinctFrom (Some v) rest
  end.

Definition distinctUntilChanged (src : Observable bool) : Observable bool :=
  fun t0 h =>
    {| values := distinctFrom None (values (src t0 h)); failure := failure (src t0 h) |}.

(** [shareReplay(1)]: one subscription to the source is shared by all
    subscribers, so they are delivered the same values; the value replayed to
    a subscriber that attaches at time [T] is [cached] below. *)
Definition shareReplay {A} (bufferSize : nat) (src : Observable A) : Observable A := src.
End Rx.

(** The latest value delivered up to time [T]: what a [shareReplay(1)] stream
    holds in its buffer then; [None] if nothing has been delivered yet. *)
Definition cached {A} (evs : list (nat * A)) (T : nat) : option A :=
  last (List.map snd (filter (fun e => fst e <= T) evs)).

(** ** [lib/poller.ts]

    The functions of the [api] module are parameters: what each call returns,
    by the time of the call. The dashboard's [PowerStateData] has the fields
    the server sends. All the streams are subscribed at the same time [t0],
    when the dashboard starts. *)

Definition POLL_INTERVAL : nat := 2000.

Record PictureSettings : Type := mkPictureSettings {
  brightness : option Z;
  contrast : option Z;
  sharpness : option Z
}.

Section Poller.

Variable tie : nat -> nat -> bool.
Variable getPowerState : Async PowerStateData.

Definition fetchPowerState : TaskEither PowerStateData :=
  TE.tryCatch getPowerState (fun e => "Failed to fetch power state: " +:+ e).

(** The mapping is [either => E.isRight(either) ? either.right : null]. *)
Definition power : Observable (option PowerStateData) :=
  Rx.shareReplay 1
    (Rx.map (fun either => match either with Right r => Some r | Left _ => None end)
       (Rx.switchMap tie (fun _ => Rx.from fetchPowerState)
          (Rx.startWith 0 (Rx.interval POLL_INTERVAL)))).

Definition powerState : Observable (option PowerStateData) := power.

Definition isProjectorOn : Observable bool :=
  Rx.shareReplay 1
    (Rx.distinctUntilChanged
       (Rx.map (fun s =>
                  match s with
                  | Some s => bool_decide (powerOn s = Some true) && PowerState_eqb (state s) ON
                  | None => false
                  end) power)).

(** [T | null] is an option; the injection of [T] into it is [Some]. *)
Definition createPollingTask {T} (fetchFn : Async T) (errorMsg : string)
    : TaskEither (option T) :=
  TE.orElse (fun _ => TE.of_ None)
    (TE.map Some (TE.tryCatch fetchFn (fun e => errorMsg +:+ ": " +:+ e))).

Definition createConditionalPoller {T} (condition : Observable bool)
    (task : TaskEither (option T)) : Observable (option T) :=
  Rx.shareReplay 1
    (Rx.switchMap tie
       (fun isOn : bool =>
          if isOn
          then Rx.switchMap tie
                 (fun _ => Rx.from (then_ (E.getOrElse (fun _ => None)) task))
                 (Rx.startWith 0 (Rx.interval POLL_INTERVAL))
          else Rx.of_ None)
       condition).

Variables Temperature FanSpeed Volume PictureMode : Type.
Variable getTemperature : Async Temperature.
Variable getFanSpeed : Async FanSpeed.
Variable getVolume : Async Volume.
Variable getPictureMode : Async PictureMode.
Variables getBrightness getContrast getSharpness : Async (option Z).

Definition temperature : Observable (option Temperature) :=
  createConditionalPoller isProjectorOn
    (createPollingTask getTemperature "Failed to fetch temperature").

Definition fanSpeed : Observable (option FanSpeed) :=
  createConditionalPoller isProjectorOn
    (createPollingTask getFanSpeed "Failed to fetch fan speed").

Definition volume : Observable (option Volume) :=
  createConditionalPoller isProjectorOn
    (createPollingTask getVolume "Failed to fetch volume").

Definition pictureMode : Observable (option PictureMode) :=
  createConditionalPoller isProjectorOn
    (createPollingTask getPictureMode "Failed to fetch picture mode").

Definition fetchPictureSettings : TaskEither PictureSettings :=
  TE.orElse
    (fun _ => TE.of_ {| brightness := None; contrast := None; sharpness := None |})
    (TE.map
       (fun '(b, c, s) => {| brightness := b; contrast := c; sharpness := s |})
       (TE.tryCatch
          (fun t => Promise_all (getBrightness t) (getContrast t) (getSharpness t))
          (fun e => "Failed to fetch picture settings: " +:+ e))).

Definition pictureSettings : Observable (option PictureSettings) :=
  createConditionalPoller isProjectorOn (TE.map Some fetchPictureSettings).

End Poller.

(** ** Describing what a stream delivers *)

(** The times of [evs] do not decrease; they start at [lo] or later and are
    all before [h]. *)
Fixpoint timeline {A} (lo : nat) (evs : list (nat * A)) (h : nat) : Prop :=
  match evs with
  | [] => lo <= h
  | e :: rest => lo <= fst e /\ fst e < h /\ timeline (fst e) rest h
  end.

Definition orderly {A} (o : Observable A) : Prop :=
  forall t0 h, t0 <= h -> timeline t0 (values (o t0 h)) h.

(** The observable never ends with an error. *)
Definition unfailing {A} (o : Observable A) : Prop :=
  forall t0 h, failure (o t0 h) = None.

(** The instant the [i]-th value stops being the latest one: the time of the
    next value, or the end of the observation. *)
Definition phaseEnd {A} (evs : list (nat * A)) (i h : nat) : nat :=
  from_option fst h (evs !! S i).

(** The instant up to which the inner observable of the [i]-th outer value is
    listened to. *)
Definition horizon {A} (tie : nat -> nat -> bool) (evs : list (nat * A)) (i h : nat) : nat :=
  match evs !! i, evs !! S i with
  | Some e, Some e' => if tie (fst e) (fst e') then S (fst e') else fst e'
  | _, _ => h
  end.

(** While the signal is off, the stream holds [none]. *)
Definition idleIsNone {W} (none : W) (signal : list (nat * bool)) (h : nat)
    (out : list (nat * W)) : Prop :=
  forall i t T,
    signal !! i = Some (t, false) ->
    t <= T < phaseEnd signal i h ->
    cached out T = Some none.

(** While the signal is on, a poll starts at the instant the signal turned on
    and every [POLL_INTERVAL] after it; [tickResult] gives, for a poll started
    at some time, how long it takes and the value it ends with. A poll that
    has ended before the next one starts (and before the signal changes) is
    what the stream holds from the instant it ended until the next poll
    starts (or the signal changes). *)
Definition pollsWhileOn {W} (signal : list (nat * bool)) (h : nat)
    (out : list (nat * W)) (tickResult : nat -> nat * W) : Prop :=
  forall i t k T,
    signal !! i = Some (t, true) ->
    let tick := t + k * POLL_INTERVAL in
    tick + fst (tickResult tick) <= T ->
    T < Nat.min (tick + POLL_INTERVAL) (phaseEnd signal i h) ->
    cached out T = Some (snd (tickResult tick)).

(** A poll ends with the value read, or with none if the read failed. *)
Definition valueOrNone {T} (fetchFn : Async T) : nat -> nat * option T :=
  fun t =>
    (fst (fetchFn t),
     match snd (fetchFn t) with
     | Right v => Some v
     | Left _ => None
     end).

(** The three metric entries behind the picture-settings stream. *)
Definition metrics (v : option PictureSettings) : option Z * option Z * option Z :=
  match v with
  | Some s => (brightness s, contrast s, sharpness s)
  | None => (None, None, None)
  end.

(** The three reads of a picture-settings poll: the values read if all three
    succeed, none for each metric otherwise. *)
Definition allOrNone (getBrightness getContrast getSharpness : Async (option Z))
    : nat -> nat * (option Z * option Z * option Z) :=
  fun t =>
    (fst (Promise_all (getBrightness t) (getContrast t) (getSharpness t)),
     match snd (getBrightness t), snd (getContrast t), snd (getSharpness t) with
     | Right b, Right c, Right s => (b, c, s)
     | _, _, _ => (None, None, None)
     end).

(** The timer both kinds of poller are built on: a tick at once, then one
    every period. *)
Definition ticks (period : nat) : Observable nat :=
  Rx.startWith 0 (Rx.interval period).

(** The loop [interval(POLL_INTERVAL).pipe(startWith(0), switchMap(() =>
    task()))], which [power] and the conditional pollers share. *)
Definition pollingLoop {A} (tie : nat -> nat -> bool) (task : Task A) : Observable A :=
  Rx.switchMap tie (fun _ => Rx.from task) (Rx.startWith 0 (Rx.interval POLL_INTERVAL)).

(** A conditional poller follows the on/off signal: it holds none while the
    signal is off, and polls from the instant the signal turns on. *)
Definition followsSignal {W} (none : W) (signal : list (nat * bool)) (h : nat)
    (out : list (nat * W)) (tickResult : nat -> nat * W) : Prop :=
  idleIsNone none signal h out /\ pollsWhileOn signal h out tickResult.

(** The promise of the call made at [t] is rejected. *)
Definition rejectedAt {A} (fetchFn : Async A) (t : nat) : Prop :=
  exists e, snd (fetchFn t) = Left e.

(** The failure sentence with no condition on when a poll ends: a poll that
    fails, started while the signal is on, leaves the stream holding [none]
    at some time from its start on. *)
Definition failedPollYieldsNone {W} (none : W) (signal : list (nat * bool)) (h : nat)
    (out : list (nat * W)) (failed : nat -> Prop) : Prop :=
  forall i t k,
    signal !! i = Some (t, true) ->
    let tick := t + k * POLL_INTERVAL in
    tick < phaseEnd signal i h ->
    failed tick ->
    exists T, tick <= T /\ cached out T = Some none.

(** For the power stream, which polls from the subscription on. *)
Definition failedFetchYieldsNone {W} (none : W) (t0 h : nat) (out : list (nat * W))
    (failed : nat -> Prop) : Prop :=
  forall k,
    let tick := t0 + k * POLL_INTERVAL in
    tick < h ->
    failed tick ->
    exists T, tick <= T /\ cached out T = Some none.

(** Timers that fire in the order they were set: only the first poll of a
    loop, started before the loop's timer, wins a tie. *)
Definition firstPollWins (t0 : nat) : nat -> nat -> bool :=
  fun t _ => t =? t0.

Definition tieLost : nat -> nat -> bool := fun _ _ => false.

(** ** A projector for the examples

    The projector is on for the first two polls and off at the third; each
    fetch of the power state takes 10ms. *)

Definition snapshotOn : PowerStateData :=
  {| powerOn := Some true; state := ON; transitionStartTime := None |}.

Definition snapshotOff : PowerStateData :=
  {| powerOn := Some false; state := OFF; transitionStartTime := None |}.

Definition exampleGetPowerState : Async PowerStateData :=
  fun t => if t <? 4000 then (10, Right snapshotOn) else (10, Right snapshotOff).

(** A projector that stays on. *)
Definition steadyGetPowerState : Async PowerStateData :=
  fun _ => (10, Right snapshotOn).

(** A fetch of the power state that is given up after 2500ms, every time. *)
Definition timingOutGetPowerState : Async PowerStateData :=
  fun _ => (2500, Left "timeout"%string).

(** A temperature read that fails once, at the second poll. *)
Definition exampleGetTemperature : Async Z :=
  fun t => if t =? 2010 then (30, Left "timeout"%string) else (5, Right 41%Z).

(** A temperature read that is given up after 2500ms, once, at the second
    poll. *)
Definition slowFailingGetTemperature : Async Z :=
  fun t => if t =? 2010 then (2500, Left "timeout"%string) else (5, Right 41%Z).

(** Picture reads of which the contrast read always fails. *)
Definition exampleGetBrightness : Async (option Z) := fun _ => (5, Right (Some 50%Z)).
Definition exampleGetContrast : Async (option Z) := fun _ => (8, Left "timeout"%string).
Definition exampleGetSharpness : Async (option Z) := fun _ => (3, Right (Some 7%Z)).

(** A contrast read that is given up after 2500ms, every time. *)
Definition slowFailingGetContrast : Async (option Z) :=
  fun _ => (2500, Left "timeout"%string).

(** * The Device Link

    Modelled from the spec: the Device Link of [lib/tk700-client], which is
    not among the sources. The link is a frame pipe over one serial line:
    [exchange] sends one request and waits for the response, a timeout or the
    loss of the connection; only one exchange is outstanding at a time, and
    concurrent callers are queued in request order. Concurrency is the
    interleaving of the callers' requests with what happens on the line. *)

Module DeviceLink.

Definition frame : Type := string.

Inductive failure : Type :=
  | LinkTimeout
  | LinkClosed.

Definition result : Type := Either failure frame.

(** A caller's exchange, numbered in request order, with its request frame. *)
Definition ticket : Type := (nat * frame)%type.

(** What the line has seen: a request written for an exchange, or the end of
    the exchange that was outstanding. *)
Inductive entry : Type :=
  | Wrote (t : ticket)
  | Ended (t : ticket) (r : result).

Record link : Type := mkLink {
  issued : list frame;
  pending : list ticket;
  outstanding : option ticket;
  line : list entry;
  completed : list (ticket * result)
}.

Definition idle : link :=
  {| issued := []; pending := []; outstanding := None; line := []; completed := [] |}.

(** What can happen: a caller requests an exchange, or the outstanding
    exchange ends with a response, a timeout or the loss of the connection. *)
Inductive input : Type :=
  | Exchange (request : frame)
  | Response (response : frame)
  | Timeout
  | Closed.

(** When nothing is outstanding the oldest queued exchange goes on the
    line. *)
Definition pump (l : link) : link :=
  match outstanding l, pending l with
  | None, t :: rest =>
      {| issued := issued l; pending := rest; outstanding := Some t;
         line := line l ++ [Wrote t]; completed := completed l |}
  | _, _ => l
  end.

Definition enqueue (request : frame) (l : link) : link :=
  {| issued := issued l ++ [request];
     pending := pending l ++ [(length (issued l), request)];
     outstanding := outstanding l; line := line l; completed := completed l |}.

Definition finish (r : result) (l : link) : link :=
  match outstanding l with
  | Some t =>
      {| issued := issued l; pending := pending l; outstanding := None;
         line := line l ++ [Ended t r]; completed := completed l ++ [(t, r)] |}
  | None => l
  end.

Definition step (l : link) (i : input) : link :=
  match i with
  | Exchange request => pump (enqueue request l)
  | Response response => pump (finish (Right response) l)
  | Timeout => pump (finish (Left LinkTimeout) l)
  | Closed => pump (finish (Left LinkClosed) l)
  end.

Definition run (inputs : list input) : link := fold_left step inputs idle.

(** The exchanges in request order. *)
Definition tickets (l : link) : list ticket := imap (fun k f => (k, f)) (issued l).

(** The requests the device has observed, in order. *)
Definition observed (es : list entry) : list ticket :=
  flat_map (fun e => match e with Wrote t => [t] | Ended _ _ => [] end) es.

Definition ended (es : list entry) : list (ticket * result) :=
  flat_map (fun e => match e with Wrote _ => [] | Ended t r => [(t, r)] end) es.

(** The exchanges on the line that have not ended. *)
Definition inFlight (l : link) : nat := length (observed (line l)) - length (ended (line l)).

(** The line of a link on which the exchanges run one after the other. *)
Definition oneByOne (done : list (ticket * result)) (current : option ticket) : list entry :=
  flat_map (fun c => [Wrote (fst c); Ended (fst c) (snd c)]) done
  ++ match current with Some t => [Wrote t] | None => [] end.

Definition invariant (l : link) : Prop :=
  List.map fst (completed l) ++ option_list (outstanding l) ++ pending l = tickets l
  /\ line l = oneByOne (completed l) (outstanding l)
  /\ (outstanding l = None -> pending l = []).

End DeviceLink.

(** * Further vocabulary

    ** Histories and requests *)

Local Open Scope Z_scope.

(** The event is a reading that carries a value. *)
Definition readingObserved (ev : event) : bool :=
  match ev with
  | ObserveReading _ (Some _) => true
  | _ => false
  end.

(** The length of a phase in whole seconds, as the code picks [totalTime]. *)
Definition totalSeconds (s : PowerState) : Z :=
  match s with
  | WARMING_UP => 30
  | _ => 90
  end.

(** The requests the modelled routes answer, and the server after a sequence
    of them, each answered in an environment of its own. *)
Inductive request : Type :=
  | GetPowerState
  | PostPower (on : bool)
  | PostBrightness (body : json).

Definition serve (env : Env) (w : Server) (req : request) : Server :=
  match req with
  | GetPowerState => snd (run env getPowerStateRoute w)
  | PostPower on => snd (run env (postPowerRoute on) w)
  | PostBrightness body => snd (run env (postBrightnessRoute body) w)
  end.

Definition serveAll (reqs : list (Env * request)) : Server :=
  fold_left (fun w r => serve (fst r) w (snd r)) reqs startServer.

(** ** Streams *)

Local Open Scope nat_scope.

(** What the on/off signal makes of a power snapshot, or of none. *)
Definition signalOf (s : option PowerStateData) : bool :=
  match s with
  | Some s => bool_decide (powerOn s = Some true) && PowerState_eqb (state s) ON
  | None => false
  end.

(** Each value differs from the one before it, the first one from
    [previous]. *)
Fixpoint changes (previous : option bool) (evs : list (nat * bool)) : Prop :=
  match evs with
  | [] => True
  | e :: rest => previous <> Some (snd e) /\ changes (Some (snd e)) rest
  end.

(** A fetch of the power state that takes longer than a period, once. *)
Definition slowGetPowerState : Async PowerStateData :=
  fun t => if t =? 2000 then (2500, Right snapshotOff) else (10, Right snapshotOn).

(** A fetch of the power state that takes exactly one period. *)
Definition periodLongGetPowerState : Async PowerStateData :=
  fun _ => (2000, Right snapshotOff).

(** A task without a catch, whose promise is rejected once, at the second
    poll. *)
Definition rejectedOnce : Task nat :=
  fun t => if t =? 2000 then (10, Left "ECONNRESET"%string) else (10, Right 1).

(** ** The dashboard's requests to the server *)

(** Modelled from the spec: [getPowerState] of the [api] module, which is not
    among the sources. Each call sends one GET /api/power-state, the route
    that "triggers one fresh power read, then returns enriched snapshot",
    and is fulfilled with the snapshot in the response, or rejected when no
    response comes back. The requests are told apart by the tick they belong
    to: [serverAt k] is the server as the request of the [k]-th tick finds
    it, [envAt k] its clock and device then, [roundTrip k] the time until the
    call settles, and [answered k] whether the response comes back. *)
Record Backend : Type := mkBackend {
  serverAt : nat -> Server;
  envAt : nat -> Env;
  roundTrip : nat -> nat;
  answered : nat -> bool
}.

Definition getPowerStateOver (net : Backend) (t0 : nat) : Async PowerStateData :=
  fun t =>
    let k := (t - t0) / POLL_INTERVAL in
    (roundTrip net k,
     if answered net k
     then match fst (run (envAt net k) getPowerStateRoute (serverAt net k)) with
          | Returned r =>
              match data (body r) with
              | Some info => Right (snapshot info)
              | None => Left "No data"%string
              end
          | Thrown e => Left e
          end
     else Left "Failed to fetch"%string).

(** A server whose device reports the projector on, answering within 10ms
    every request but that of the second tick. *)
Definition exampleBackend : Backend :=
  {| serverAt := fun _ => startServer;
     envAt := fun _ => {| clock := fun _ => 0%Z; device := workingDevice |};
     roundTrip := fun _ => 10;
     answered := fun k => negb (k =? 1) |}.

Local Open Scope Z_scope.

(** * Properties of the power state machine *)

Lemma PowerState_eqb_spec (a b : PowerState) :
  reflect (a = b) (PowerState_eqb a b).
Proof. destruct a, b; simpl; constructor; congruence. Qed.

Lemma PowerState_eqb_refl (a : PowerState) : PowerState_eqb a a = true.
Proof. now destruct a. Qed.

Lemma transitioning_spec (s : PowerStateData) :
  transitioning s = true <-> state s = WARMING_UP \/ state s = COOLING_DOWN.
Proof.
  unfold transitioning. destruct (state s); simpl; split;
    try discriminate; intuition congruence.
Qed.

(** An observation resolves to a transitional state only by holding the one
    the machine is already in. *)
Lemma inferPowerState_cases (now : Z) (current : PowerStateData) (on : bool) :
  let next := inferPowerState now current on in
  (next = state current /\ transitioning current = true)
  \/ next = (if on then ON else OFF).
Proof.
  unfold inferPowerState, transitioning.
  destruct (state current); simpl; auto;
    match goal with |- context [number_ltb ?a ?b] => destruct (number_ltb a b) end;
    simpl; auto.
Qed.

Lemma updateFromProjector_invariant (now : Z) (s : PowerStateData) (reading : option bool) :
  timer_invariant s -> timer_invariant (updateFromProjector now s reading).
Proof.
  intros Hs. destruct reading as [on|]; [|exact Hs].
  unfold timer_invariant, updateFromProjector in *.
  cbn [O.getOrElse O.map O.fromNullable state transitionStartTime].
  destruct (inferPowerState_cases now s on) as [[Hsame Htr]|Hres].
  - rewrite Hsame. unfold shouldResetTransition.
    rewrite PowerState_eqb_refl. exact Hs.
  - rewrite Hres. unfold shouldResetTransition.
    destruct on, (state s) eqn:Hst; simpl; intuition congruence.
Qed.

Lemma initiateTransition_cases (now : Z) (current : PowerStateData) (targetOn : bool) :
  initiateTransition now current targetOn =
    match targetOn, state current with
    | true, OFF =>
        {| powerOn := Some true; state := WARMING_UP; transitionStartTime := Some now |}
    | false, ON =>
        {| powerOn := Some false; state := COOLING_DOWN; transitionStartTime := Some now |}
    | _, _ => current
    end.
Proof.
  unfold initiateTransition. destruct targetOn, (state current); reflexivity.
Qed.

Lemma initiateTransition_invariant (now : Z) (s : PowerStateData) (targetOn : bool) :
  timer_invariant s -> timer_invariant (initiateTransition now s targetOn).
Proof.
  intros Hs. unfold initiateTransition.
  destruct targetOn, (state s) eqn:Hst; simpl; try exact Hs;
    unfold timer_invariant; simpl; intuition congruence.
Qed.

Lemma step_invariant (s : PowerStateData) (ev : event) :
  timer_invariant s -> timer_invariant (step s ev).
Proof.
  destruct ev; simpl;
    auto using updateFromProjector_invariant, initiateTransition_invariant.
Qed.

Lemma initialState_invariant : timer_invariant initialState.
Proof. unfold timer_invariant; simpl; intuition congruence. Qed.

Lemma fold_step_invariant (evs : list event) (s : PowerStateData) :
  timer_invariant s -> timer_invariant (fold_left step evs s).
Proof.
  revert s. induction evs as [|ev evs IH]; intros s Hs; simpl; [exact Hs|].
  apply IH, step_invariant, Hs.
Qed.

Lemma reachable_invariant (s : PowerStateData) :
  reachable s -> timer_invariant s.
Proof.
  induction 1; auto using initialState_invariant, step_invariant.
Qed.

Lemma runEvents_reachable (evs : list event) : reachable (runEvents evs).
Proof.
  unfold runEvents. generalize initialState reach_initial.
  induction evs as [|ev evs IH]; intros s Hs; simpl; [exact Hs|].
  apply IH. constructor. exact Hs.
Qed.

(** C1. After any sequence of observed readings and requested transitions,
    starting from the initial snapshot, [transitionStartTime] is set if and
    only if the state is [WARMING_UP] or [COOLING_DOWN]. *)
Theorem timer_set_iff_transitioning (evs : list event) :
  transitionStartTime (runEvents evs) <> None
  <-> (state (runEvents evs) = WARMING_UP \/ state (runEvents evs) = COOLING_DOWN).
Proof. apply fold_step_invariant, initialState_invariant. Qed.

(** ** Observed readings *)

Lemma calculateTimeSinceTransition_elapsed (now : Z) (startTime : option Z) :
  startTime <> Some 0 ->
  calculateTimeSinceTransition now startTime = Spec.elapsed now startTime.
Proof.
  destruct startTime as [t|]; simpl; [|reflexivity].
  destruct (Z.eqb_spec t 0); congruence.
Qed.

Lemma inferPowerState_resolve (now : Z) (current : PowerStateData) (on : bool) :
  transitionStartTime current <> Some 0 ->
  inferPowerState now current on = Spec.resolve now current on.
Proof.
  intros H. unfold inferPowerState, Spec.resolve.
  rewrite (calculateTimeSinceTransition_elapsed _ _ H).
  unfold WARMING_UP_TIME_SECONDS, COOLING_DOWN_TIME_SECONDS.
  destruct (state current); simpl; reflexivity.
Qed.

Lemma shouldResetTransition_spec (currentState newState : PowerState) :
  shouldResetTransition currentState newState
  = bool_decide (newState <> currentState /\ (newState = ON \/ newState = OFF)).
Proof. destruct currentState, newState; reflexivity. Qed.

(** Away from a start time of [0], the code is the specification's
    [observeReading]. *)
Lemma updateFromProjector_refines (now : Z) (current : PowerStateData)
    (reading : option bool) :
  transitionStartTime current <> Some 0 ->
  updateFromProjector now current reading = Spec.observeReading now current reading.
Proof.
  intros H. destruct reading as [on|]; [|reflexivity].
  unfold updateFromProjector, Spec.observeReading.
  cbn [O.getOrElse O.map O.fromNullable].
  rewrite (inferPowerState_resolve _ _ _ H), shouldResetTransition_spec.
  reflexivity.
Qed.

Lemma updateFromProjector_none (now : Z) (current : PowerStateData) :
  updateFromProjector now current None = current.
Proof. reflexivity. Qed.

Lemma updateFromProjector_powerOn (now : Z) (current : PowerStateData) (on : bool) :
  powerOn (updateFromProjector now current (Some on)) = Some on.
Proof. reflexivity. Qed.

(** A snapshot whose transition started at timestamp [0] is reachable: the
    request arrives while [Date.now()] reads [0]. *)
Lemma zero_start_time_reachable :
  runEvents [ObserveReading 0 (Some false); RequestTransition 0 true]
  = {| powerOn := Some true; state := WARMING_UP; transitionStartTime := Some 0 |}.
Proof. reflexivity. Qed.

(** C2. One second into a warm-up that started at timestamp [0], a reading
    of [true] makes [updateFromProjector] resolve to [ON] and clear the
    timer, where the specified [observeReading] (elapsed 1s < 30s) holds
    [WARMING_UP] and keeps the timer: the truthiness test in
    [calculateTimeSinceTransition] takes the start time [0] for no start
    time. *)
Theorem updateFromProjector_zero_start_time :
  let current :=
    {| powerOn := Some true; state := WARMING_UP; transitionStartTime := Some 0 |} in
  updateFromProjector 1000 current (Some true)
    = {| powerOn := Some true; state := ON; transitionStartTime := None |}
  /\ Spec.observeReading 1000 current (Some true) = current
  /\ number_ltb (Spec.elapsed 1000 (transitionStartTime current)) 30 = true
  /\ calculateTimeSinceTransition 1000 (transitionStartTime current) = PosInf.
Proof. vm_compute. repeat split. Qed.

(** ** Requested transitions *)

(** C3. A request to turn on is honoured only from [OFF], a request to turn
    off only from [ON]; each starts the matching transition at the current
    time, and every other combination returns the snapshot unchanged. *)
Theorem initiateTransition_honored_from_stable (now : Z) (current : PowerStateData)
    (targetOn : bool) :
  initiateTransition now current targetOn =
    match targetOn, state current with
    | true, OFF =>
        {| powerOn := Some true; state := WARMING_UP; transitionStartTime := Some now |}
    | false, ON =>
        {| powerOn := Some false; state := COOLING_DOWN; transitionStartTime := Some now |}
    | _, _ => current
    end.
Proof.
  unfold initiateTransition. destruct targetOn, (state current); reflexivity.
Qed.

Lemma initiateTransition_changes_only_from_stable (now : Z) (current : PowerStateData)
    (targetOn : bool) :
  initiateTransition now current targetOn <> current ->
  (targetOn = true /\ state current = OFF) \/ (targetOn = false /\ state current = ON).
Proof.
  rewrite initiateTransition_cases.
  destruct targetOn, (state current); intuition congruence.
Qed.

(** ** Remaining seconds *)

Lemma Qle_bool_0_inject_Z (z : Z) : Qle_bool 0 (inject_Z z) = (0 <=? z).
Proof. unfold Qle_bool. simpl. f_equal; lia. Qed.

Lemma Math_max_ceil (q : Q) :
  Math_max 0 (Math_ceil (Fin q)) = Fin (inject_Z (Z.max 0 (Qceiling q))).
Proof.
  unfold Math_max, Math_ceil. rewrite Qle_bool_0_inject_Z.
  destruct (Z.leb_spec 0 (Qceiling q)).
  - rewrite Z.max_r by lia. reflexivity.
  - rewrite Z.max_l by lia. reflexivity.
Qed.

Lemma calculateRemainingSeconds_none (now : Z) (s : PowerStateData) :
  transitionStartTime s = None -> calculateRemainingSeconds now s = Fin 0.
Proof. unfold calculateRemainingSeconds. now intros ->. Qed.

(** Away from a start time of [0], the code computes the specification's
    [remainingSeconds]. *)
Lemma calculateRemainingSeconds_refines (now : Z) (s : PowerStateData) :
  transitionStartTime s <> Some 0 ->
  calculateRemainingSeconds now s = Fin (inject_Z (Spec.remainingSeconds now s)).
Proof.
  intros H. unfold calculateRemainingSeconds, Spec.remainingSeconds.
  destruct (transitionStartTime s) as [t|] eqn:Ht; [|reflexivity].
  rewrite (calculateTimeSinceTransition_elapsed _ _ H).
  cbn [Spec.elapsed number_sub]. rewrite Math_max_ceil.
  unfold WARMING_UP_TIME_SECONDS, COOLING_DOWN_TIME_SECONDS, Spec.phaseDuration.
  destruct (state s); reflexivity.
Qed.

Lemma Qceiling_one_second : Qceiling (30 - inject_Z 29000 / 1000) = 1.
Proof. reflexivity. Qed.

(** Twenty-nine seconds into a warm-up one second remains, unless the
    warm-up started at timestamp [0]. *)
Lemma calculateRemainingSeconds_29s (now : Z) (on : option bool) :
  now <> 29000 ->
  calculateRemainingSeconds now
    {| powerOn := on; state := WARMING_UP; transitionStartTime := Some (now - 29000) |}
  = Fin 1.
Proof.
  intros H. rewrite calculateRemainingSeconds_refines.
  - unfold Spec.remainingSeconds. simpl.
    replace (now - (now - 29000)) with 29000 by lia. reflexivity.
  - simpl. intros [= Heq]. lia.
Qed.

(** C4. For a warm-up that started at timestamp [0] the code reports no
    remaining seconds: one second in, the specified value is
    [max(0, ceil(30 - 1)) = 29]; and with [now = 29000] the snapshot with
    [transitionStartTime = now - 29s] gives [0] where the specification says
    [1]. The snapshot is non-none either way; the start time [0] is taken for
    no start time by [calculateTimeSinceTransition]. *)
Theorem calculateRemainingSeconds_zero_start_time :
  let s := {| powerOn := Some true; state := WARMING_UP; transitionStartTime := Some 0 |} in
  calculateRemainingSeconds 1000 s = Fin 0
  /\ Spec.remainingSeconds 1000 s = 29
  /\ calculateRemainingSeconds 29000
       {| powerOn := Some true; state := WARMING_UP;
          transitionStartTime := Some (29000 - 29000) |} = Fin 0
  /\ Spec.remainingSeconds 29000
       {| powerOn := Some true; state := WARMING_UP;
          transitionStartTime := Some (29000 - 29000) |} = 1.
Proof. vm_compute. repeat split. Qed.

(** * Properties of the routes *)

Lemma run_handleTask {A} (env : Env) (task : command A) (w : Server) :
  run env (handleTask task) w =
    (Returned {| body := toApiResponse (device env A task);
                 status := if truthy_string (error (toApiResponse (device env A task)))
                           then 500 else 200 |},
     {| manager := manager w; clockReads := clockReads w;
        issuedLog := issuedLog w ++ [(Issued task, manager w)] |}).
Proof. reflexivity. Qed.

Lemma handleTask_status {A} (env : Env) (task : command A) (w : Server) (r : Response A) :
  fst (run env (handleTask task) w) = Returned r -> status r = 200 \/ status r = 500.
Proof.
  rewrite run_handleTask. simpl. intros [= <-]. simpl.
  destruct (truthy_string _); auto.
Qed.

(** ** POST /api/power *)

(** Whatever the device answers, the route has applied the transition, and
    the command went out from the snapshot after the transition. *)
Lemma run_postPowerRoute (env : Env) (w : Server) (on : bool) :
  let next := initiateTransition (clock env (clockReads w)) (manager w) on in
  run env (postPowerRoute on) w =
    (Returned {| body := toApiResponse (device env unit (setPower on));
                 status := if truthy_string (error (toApiResponse (device env unit (setPower on))))
                           then 500 else 200 |},
     {| manager := next; clockReads := S (clockReads w);
        issuedLog := issuedLog w ++ [(Issued (setPower on), next)] |}).
Proof. reflexivity. Qed.

(** C9. POST /api/power applies [initiateTransitionTo on] before the device
    command [setPower on] is issued, and keeps it when the command fails: the
    command goes out from the snapshot after the transition, the response
    carries the error, and the snapshot has moved from [OFF] to [WARMING_UP]
    (or from [ON] to [COOLING_DOWN]). *)
Theorem postPower_transition_survives_failure (env : Env) (w : Server) (on : bool)
    (e : Error) :
  device env unit (setPower on) = Left e ->
  let now := clock env (clockReads w) in
  let res := run env (postPowerRoute on) w in
  manager (snd res) = initiateTransition now (manager w) on
  /\ issuedLog (snd res)
     = issuedLog w ++ [(Issued (setPower on), initiateTransition now (manager w) on)]
  /\ (exists r, fst res = Returned r /\ error (body r) = Some e /\ data (body r) = None)
  /\ state (manager (snd res)) =
       match on, state (manager w) with
       | true, OFF => WARMING_UP
       | false, ON => COOLING_DOWN
       | _, st => st
       end.
Proof.
  intros Hfail now res. subst res. rewrite run_postPowerRoute. cbn [fst snd manager issuedLog].
  rewrite Hfail. repeat split.
  - eexists. split; [reflexivity|]. split; reflexivity.
  - rewrite initiateTransition_cases.
    destruct (manager w) as [p st t]. destruct on, st; reflexivity.
Qed.

Lemma postPower_transition_survives_failure_witness :
  let env := {| clock := fun _ => 5000; device := failingDevice |} in
  let w := {| manager := {| powerOn := Some false; state := OFF; transitionStartTime := None |};
              clockReads := 0; issuedLog := [] |} in
  device env unit (setPower true) = Left "ECONNREFUSED"%string
  /\ manager (snd (run env (postPowerRoute true) w))
     = {| powerOn := Some true; state := WARMING_UP; transitionStartTime := Some 5000 |}.
Proof.
  split; [reflexivity|].
  apply (postPower_transition_survives_failure
           {| clock := fun _ => 5000; device := failingDevice |}
           {| manager := {| powerOn := Some false; state := OFF; transitionStartTime := None |};
              clockReads := 0; issuedLog := [] |}
           true "ECONNREFUSED"%string).
  reflexivity.
Defined.

(** ** GET /api/power-state *)

(** The route asks the device for its power status, feeds the reading (none
    when the task failed) into [updateFromProjector], and answers with the
    enriched snapshot. *)
Lemma run_getPowerStateRoute (env : Env) (w : Server) :
  let reading := E.getOrElse (fun _ => None) (device env _ getPowerStatus) in
  let next := updateFromProjector (clock env (clockReads w)) (manager w) reading in
  run env getPowerStateRoute w =
    (Returned {| body := {| error := None;
                            data := Some (enrichWithRemainingSeconds
                                               (clock env (S (clockReads w))) next) |};
                 status := 200 |},
     {| manager := next; clockReads := S (S (clockReads w));
        issuedLog := issuedLog w ++ [(Issued getPowerStatus, manager w)] |}).
Proof.
  cbn. destruct (device env _ getPowerStatus); reflexivity.
Qed.

(** A failed device read leaves the snapshot as it was. *)
Lemma getPowerStateRoute_device_failure (env : Env) (w : Server) (e : Error) :
  device env _ getPowerStatus = Left e ->
  manager (snd (run env getPowerStateRoute w)) = manager w.
Proof. intros H. rewrite run_getPowerStateRoute, H. reflexivity. Qed.

(** ** POST /api/brightness *)

Lemma property_field (body : json) (name : string) :
  body <> JNull -> property body name = Ret (field body name).
Proof. destruct body; intros H; try reflexivity. congruence. Qed.

Lemma run_postBrightnessRoute (env : Env) (w : Server) (body : json) :
  body <> JNull ->
  run env (postBrightnessRoute body) w =
    if truthy (field body "direction") then
      run env (handleTask (adjustBrightness (field body "direction"))) w
    else if bool_decide (field body "value" <> None) then
      run env (handleTask (setBrightness (field body "value"))) w
    else
      (Returned {| body := {| error := Some "Invalid request"%string; data := None |};
                   status := 400 |}, w).
Proof.
  intros H. unfold postBrightnessRoute.
  rewrite (property_field _ "direction" H). cbn [bind].
  destruct (truthy (field body "direction")); [reflexivity|].
  rewrite (property_field _ "value" H). cbn [bind].
  destruct (bool_decide _); reflexivity.
Qed.

(** A [null] body makes the route throw before it decides anything. *)
Lemma run_postBrightnessRoute_null (env : Env) (w : Server) :
  run env (postBrightnessRoute JNull) w
  = (Thrown "TypeError: null is not an object"%string, w).
Proof. reflexivity. Qed.

Lemma handleTask_not_400 {A} (env : Env) (task : command A) (w : Server) :
  ~ respondsWith (run env (handleTask task) w) 400.
Proof.
  intros [r [Hr Hs]]. apply handleTask_status in Hr. lia.
Qed.

(** C8 (as amended). For a request body other than [null], POST
    /api/brightness answers 400 exactly when [body.direction] is absent or
    falsy and [body.value] is absent; a truthy [direction] dispatches
    [adjustBrightness] whether or not [value] is present; otherwise a present
    [value] dispatches [setBrightness]. *)
Theorem postBrightness_dispatch (env : Env) (w : Server) (body : json) :
  body <> JNull ->
  let res := run env (postBrightnessRoute body) w in
  let direction := field body "direction" in
  let value := field body "value" in
  (respondsWith res 400 <-> truthy direction = false /\ value = None)
  /\ (truthy direction = true -> dispatches res w (adjustBrightness direction))
  /\ (truthy direction = false -> value <> None ->
        dispatches res w (setBrightness value))
  /\ (truthy direction = false -> value = None ->
        res = (Returned {| body := {| error := Some "Invalid request"%string;
                                      data := None |};
                           status := 400 |}, w)).
Proof.
  intros H res direction value. subst res direction value.
  rewrite (run_postBrightnessRoute _ _ _ H).
  destruct (truthy (field body "direction")) eqn:Hd.
  - split; [|split; [|split]]; try discriminate.
    + split.
      * intros H4. now apply handleTask_not_400 in H4.
      * intros [? _]. discriminate.
    + intros _. reflexivity.
  - destruct (field body "value") as [v|] eqn:Hv.
    + rewrite bool_decide_eq_true_2 by discriminate.
      split; [|split; [|split]]; try discriminate.
      * split.
        -- intros H4. now apply handleTask_not_400 in H4.
        -- intros [_ ?]. discriminate.
      * intros _ _. reflexivity.
    + rewrite bool_decide_eq_false_2 by congruence.
      split; [|split; [|split]]; try discriminate; try congruence.
      split; [auto|]. intros _. eexists. split; reflexivity.
Qed.

Lemma postBrightness_dispatch_witness :
  let env := {| clock := fun _ => 0; device := workingDevice |} in
  let body := JObj {[ "direction"%string := JStr "up" ]} in
  body <> JNull
  /\ dispatches (run env (postBrightnessRoute body) startServer) startServer
       (adjustBrightness (Some (JStr "up"))).
Proof.
  split; [discriminate|].
  refine (proj1 (proj2 (postBrightness_dispatch
                          {| clock := fun _ => 0; device := workingDevice |} startServer
                          (JObj {[ "direction"%string := JStr "up" ]}) _)) _).
  - discriminate.
  - reflexivity.
Defined.

(** C8 (as stated) fails. A body whose [direction] field is the empty string
    contains a [direction] field, yet is answered with 400 and dispatches
    nothing; a body with both fields dispatches [adjustBrightness] only. *)
Lemma postBrightness_presence_fails :
  let env := {| clock := fun _ => 0; device := workingDevice |} in
  ~ brightness_by_presence env startServer (JObj {[ "direction"%string := JStr "" ]})
  /\ ~ brightness_by_presence env startServer
         (JObj (<[ "direction"%string := JStr "up" ]> {[ "value"%string := JNum 50 ]})).
Proof.
  split.
  - intros [H400 _].
    assert (Hr : respondsWith
                   (run {| clock := fun _ => 0; device := workingDevice |}
                        (postBrightnessRoute (JObj {[ "direction"%string := JStr "" ]}))
                        startServer) 400).
    { eexists. split; reflexivity. }
    apply H400 in Hr. destruct Hr as [Hr _]. vm_compute in Hr. discriminate.
  - intros [_ [_ Hvalue]].
    assert (Hp : hasField (JObj (<[ "direction"%string := JStr "up" ]>
                                   {[ "value"%string := JNum 50 ]})) "value" = true)
      by (vm_compute; reflexivity).
    apply Hvalue in Hp. unfold dispatches in Hp.
    apply (f_equal (map (fun x => operation (fst x)))) in Hp.
    vm_compute in Hp. discriminate.
Qed.

(** * Properties of the streams *)

Local Open Scope nat_scope.

Section Timelines.

Context {A : Type}.
Implicit Types (evs : list (nat * A)) (lo h : nat).

Lemma timeline_le lo evs h : timeline lo evs h -> lo <= h.
Proof.
  destruct evs as [|e evs]; simpl; [auto|]. intros (H1 & H2 & _). lia.
Qed.

Lemma timeline_weaken lo lo' evs h h' :
  timeline lo evs h -> lo' <= lo -> h <= h' -> timeline lo' evs h'.
Proof.
  revert lo lo'. induction evs as [|e evs IH]; simpl; intros lo lo' H Hlo Hh; [lia|].
  destruct H as (H1 & H2 & H3). split; [lia|]. split; [lia|].
  eapply IH; [exact H3|lia|exact Hh].
Qed.

(** What comes first may run up to and including the instant at which what
    comes next starts. *)
Lemma timeline_app lo m1 m evs1 evs2 h :
  timeline lo evs1 m1 -> timeline m evs2 h -> lo <= m -> m1 <= S m -> m1 <= h ->
  timeline lo (evs1 ++ evs2) h.
Proof.
  revert lo. induction evs1 as [|e evs1 IH]; simpl; intros lo H1 H2 Hlo Hm Hh.
  - eapply timeline_weaken; [exact H2|lia|lia].
  - destruct H1 as (Ha & Hb & Hc). split; [exact Ha|]. split; [lia|].
    apply IH; [exact Hc|exact H2|lia|exact Hm|exact Hh].
Qed.

Lemma timeline_Forall lo evs h :
  timeline lo evs h -> Forall (fun e => lo <= fst e < h) evs.
Proof.
  revert lo. induction evs as [|e evs IH]; simpl; intros lo H; constructor.
  - lia.
  - destruct H as (H1 & H2 & H3). apply IH in H3.
    eapply Forall_impl; [exact H3|]. simpl. intros; lia.
Qed.

Lemma timeline_lookup lo evs h i e :
  timeline lo evs h -> evs !! i = Some e ->
  lo <= fst e /\ fst e <= phaseEnd evs i h /\ fst e < h.
Proof.
  revert lo i. induction evs as [|e0 evs IH]; intros lo i H Hi; [discriminate|].
  destruct H as (H1 & H2 & H3). destruct i as [|i]; simpl in Hi.
  - injection Hi as ->. split; [exact H1|]. split; [|exact H2].
    unfold phaseEnd. destruct evs as [|e1 evs]; simpl in *; lia.
  - destruct (IH _ _ H3 Hi) as (Ha & Hb & Hc).
    split; [lia|]. split; [exact Hb|exact Hc].
Qed.

Lemma horizon_bounds (tie : nat -> nat -> bool) lo evs h i e :
  timeline lo evs h -> evs !! i = Some e ->
  phaseEnd evs i h <= horizon tie evs i h /\ horizon tie evs i h <= h.
Proof.
  intros H Hi. unfold horizon, phaseEnd. rewrite Hi.
  destruct (evs !! S i) as [e'|] eqn:Hnext; simpl; [|lia].
  destruct (timeline_lookup _ _ _ _ _ H Hnext) as (_ & _ & Hlt).
  destruct (tie (fst e) (fst e')); lia.
Qed.

Lemma timeline_view {B} (f : A -> B) lo h evs :
  timeline lo evs h -> timeline lo (view f evs) h.
Proof.
  revert lo. induction evs as [|e evs IH]; simpl; intros lo H; [exact H|].
  destruct H as (H1 & H2 & H3). split; [exact H1|]. split; [exact H2|]. apply IH, H3.
Qed.

Lemma lookup_view {B} (f : A -> B) evs i :
  view f evs !! i = (fun e => (fst e, f (snd e))) <$> evs !! i.
Proof. unfold view. apply list_lookup_fmap. Qed.

Lemma phaseEnd_view {B} (f : A -> B) evs i h :
  phaseEnd (view f evs) i h = phaseEnd evs i h.
Proof.
  unfold phaseEnd. rewrite lookup_view. destruct (evs !! S i); reflexivity.
Qed.

Lemma horizon_view {B} (tie : nat -> nat -> bool) (f : A -> B) evs i h :
  horizon tie (view f evs) i h = horizon tie evs i h.
Proof.
  unfold horizon. rewrite !lookup_view.
  destruct (evs !! i), (evs !! S i); reflexivity.
Qed.

End Timelines.

Section Cache.

Context {A : Type}.
Implicit Types (evs : list (nat * A)).

Lemma filter_later evs T :
  Forall (fun e => T < fst e) evs -> filter (fun e : nat * A => fst e <= T) evs = [].
Proof.
  induction 1 as [|e evs He _ IH]; [reflexivity|].
  rewrite filter_cons_False by lia. exact IH.
Qed.

Lemma cached_app_later evs1 evs2 T :
  Forall (fun e => T < fst e) evs2 -> cached (evs1 ++ evs2) T = cached evs1 T.
Proof.
  intros H. unfold cached. rewrite filter_app, (filter_later evs2 T H).
  now rewrite app_nil_r.
Qed.

Lemma cached_app_found evs1 evs2 T v :
  cached evs2 T = Some v -> cached (evs1 ++ evs2) T = Some v.
Proof.
  unfold cached. intros H. rewrite filter_app, map_app, last_app, H. reflexivity.
Qed.

Lemma cached_singleton t (v : A) T : t <= T -> cached [(t, v)] T = Some v.
Proof.
  intros H. unfold cached. rewrite filter_cons_True by (simpl; lia). reflexivity.
Qed.

Lemma cached_view {B} (f : A -> B) evs T :
  cached (view f evs) T = f <$> cached evs T.
Proof.
  unfold cached, view.
  induction evs as [|e evs IH] using rev_ind; [reflexivity|].
  rewrite map_app, !filter_app, !map_app, !last_app. simpl.
  destruct (decide (fst e <= T)) as [Hle|Hgt].
  - rewrite !filter_cons_True by (simpl; lia). reflexivity.
  - rewrite !filter_cons_False by (simpl; lia). simpl. exact IH.
Qed.

(** The value held is one that was delivered. *)
Lemma cached_In evs T v : cached evs T = Some v -> exists t, In (t, v) evs.
Proof.
  unfold cached. intros H. apply last_Some_elem_of in H.
  apply list_elem_of_fmap in H as [[t v'] [-> H]].
  apply list_elem_of_filter in H as [_ H]. exists t. now apply list_elem_of_In.
Qed.

(** Two instants between which nothing is delivered see the same value. *)
Lemma cached_stable evs T T' :
  (forall e, In e evs -> (fst e <= T <-> fst e <= T')) -> cached evs T = cached evs T'.
Proof.
  intros H. unfold cached. f_equal. f_equal.
  induction evs as [|e evs IH]; [reflexivity|].
  assert (He : fst e <= T <-> fst e <= T') by (apply H; left; reflexivity).
  assert (IH' : filter (fun e : nat * A => fst e <= T) evs
                = filter (fun e : nat * A => fst e <= T') evs).
  { apply IH. intros e' He'. apply H. right. exact He'. }
  destruct (decide (fst e <= T)) as [Hle|Hgt].
  - rewrite !filter_cons_True by tauto. now rewrite IH'.
  - rewrite !filter_cons_False by tauto. exact IH'.
Qed.

End Cache.

Section SwitchMap.

Context {B : Type}.
Variable tie : nat -> nat -> bool.
Implicit Types (outer : list (nat * Observable B)).

Lemma switchAll_cons t (inner : Observable B) outer h :
  Rx.switchAll tie ((t, inner) :: outer) h
  = match failure (inner t (horizon tie ((t, inner) :: outer) 0 h)) with
    | Some _ => inner t (horizon tie ((t, inner) :: outer) 0 h)
    | None =>
        {| values := values (inner t (horizon tie ((t, inner) :: outer) 0 h))
                     ++ values (Rx.switchAll tie outer h);
           failure := failure (Rx.switchAll tie outer h) |}
    end.
Proof. destruct outer as [|[t' inner'] outer]; reflexivity. Qed.

Lemma switchAll_timeline outer lo h :
  (forall e, In e outer -> orderly (snd e)) ->
  timeline lo outer h -> timeline lo (values (Rx.switchAll tie outer h)) h.
Proof.
  revert lo. induction outer as [|[t inner] rest IH]; intros lo Hin H; [exact H|].
  assert (Hinner : orderly inner) by (apply (Hin (t, inner)); left; reflexivity).
  destruct (horizon_bounds tie _ _ _ 0 _ H eq_refl) as [Hpe Hhz].
  destruct (timeline_lookup _ _ _ 0 _ H eq_refl) as (_ & Hle & _).
  assert (Hnext : match rest with
                  | [] => True
                  | e' :: _ => horizon tie ((t, inner) :: rest) 0 h <= S (fst e')
                  end).
  { destruct rest as [|[t' inner'] rest']; [exact I|].
    unfold horizon. simpl. destruct (tie t t'); lia. }
  rewrite switchAll_cons.
  set (hz := horizon tie ((t, inner) :: rest) 0 h) in *.
  destruct H as (Hlo & Hlt & Hrest). simpl in Hlo, Hlt, Hrest, Hle.
  assert (Hd : timeline lo (values (inner t hz)) h).
  { eapply timeline_weaken; [apply (Hinner t hz); lia|lia|lia]. }
  destruct (failure (inner t hz)); [exact Hd|]. cbn [values].
  destruct rest as [|[t' inner'] rest'].
  - simpl. rewrite app_nil_r. exact Hd.
  - simpl in Hnext. destruct Hrest as (Hr1 & Hr2 & Hr3). simpl in Hr1, Hr2, Hr3.
    apply (timeline_app lo hz t').
    + eapply timeline_weaken; [apply (Hinner t hz); lia|lia|lia].
    + apply IH; [intros e He; apply Hin; right; exact He|].
      simpl. split; [lia|]. split; [lia|exact Hr3].
    + lia.
    + exact Hnext.
    + exact Hhz.
Qed.

(** Whatever the flattened stream delivers, one of the inner streams
    delivered while it was listened to. *)
Lemma switchAll_In outer h (e : nat * B) :
  In e (values (Rx.switchAll tie outer h)) ->
  exists i t inner,
    outer !! i = Some (t, inner) /\ In e (values (inner t (horizon tie outer i h))).
Proof.
  induction outer as [|[t inner] rest IH]; [intros []|].
  rewrite switchAll_cons.
  destruct (failure (inner t (horizon tie ((t, inner) :: rest) 0 h))).
  - intros H. exists 0, t, inner. split; [reflexivity|exact H].
  - cbn [values]. rewrite in_app_iff. intros [H|H].
    + exists 0, t, inner. split; [reflexivity|exact H].
    + destruct (IH H) as (i & t' & inner' & Hi & Hin).
      exists (S i), t', inner'. split; [exact Hi|exact Hin].
Qed.

Lemma switchAll_unfailing outer h :
  (forall e, In e outer -> unfailing (snd e)) -> failure (Rx.switchAll tie outer h) = None.
Proof.
  induction outer as [|[t inner] rest IH]; intros Hunf; [reflexivity|].
  rewrite switchAll_cons.
  rewrite (Hunf (t, inner) ltac:(left; reflexivity)). cbn [failure].
  apply IH. intros e He. apply Hunf. right. exact He.
Qed.

(** With inner streams that do not fail, the flattened stream delivers all
    that each inner stream delivers while it is listened to. *)
Lemma switchAll_In_inv outer h (e : nat * B) i t (inner : Observable B) :
  (forall e, In e outer -> unfailing (snd e)) ->
  outer !! i = Some (t, inner) ->
  In e (values (inner t (horizon tie outer i h))) ->
  In e (values (Rx.switchAll tie outer h)).
Proof.
  revert i. induction outer as [|[t0 inner0] rest IH]; intros i Hunf Hi Hin; [discriminate|].
  rewrite switchAll_cons.
  rewrite (Hunf (t0, inner0) ltac:(left; reflexivity)). cbn [values].
  apply in_or_app. destruct i as [|i].
  - left. simpl in Hi. injection Hi as -> ->. exact Hin.
  - right. apply (IH i); [intros e' He'; apply Hunf; right; exact He'|exact Hi|exact Hin].
Qed.

(** During the phase of the [i]-th outer value, the flattened stream holds
    what the [i]-th inner stream has delivered. *)
Lemma switchAll_cached outer lo h i t (inner : Observable B) T v :
  (forall e, In e outer -> orderly (snd e)) ->
  (forall e, In e outer -> unfailing (snd e)) ->
  timeline lo outer h ->
  outer !! i = Some (t, inner) ->
  T < phaseEnd outer i h ->
  cached (values (inner t (horizon tie outer i h))) T = Some v ->
  cached (values (Rx.switchAll tie outer h)) T = Some v.
Proof.
  revert lo i.
  induction outer as [|[t0 inner0] rest IH]; intros lo i Hord Hunf Htl Hi HT Hv;
    [discriminate|].
  rewrite switchAll_cons.
  rewrite (Hunf (t0, inner0) ltac:(left; reflexivity)). cbn [values].
  destruct Htl as (_ & _ & Htl). simpl in Htl.
  destruct i as [|i].
  - simpl in Hi. injection Hi as -> ->.
    rewrite cached_app_later; [exact Hv|].
    destruct rest as [|[t' inner'] rest']; [constructor|].
    unfold phaseEnd in HT. simpl in HT.
    assert (Hrest : timeline t' (values (Rx.switchAll tie ((t', inner') :: rest') h)) h).
    { apply switchAll_timeline; [intros e He; apply Hord; right; exact He|].
      simpl in *. split; [lia|]. tauto. }
    apply timeline_Forall in Hrest.
    eapply Forall_impl; [exact Hrest|]. simpl. intros; lia.
  - apply cached_app_found.
    apply (IH t0 i); [intros e He; apply Hord; right; exact He
                     |intros e He; apply Hunf; right; exact He
                     |exact Htl|exact Hi|exact HT|exact Hv].
Qed.

End SwitchMap.

Lemma switchMap_values {A B} (tie : nat -> nat -> bool) (project : A -> Observable B)
    (src : Observable A) (t0 h : nat) :
  failure (src t0 h) = None ->
  values (Rx.switchMap tie project src t0 h)
  = values (Rx.switchAll tie (view project (values (src t0 h))) h).
Proof. intros H. unfold Rx.switchMap. cbv zeta. rewrite H. reflexivity. Qed.

Lemma view_In {A B} (project : A -> B) (evs : list (nat * A)) (P : B -> Prop) :
  (forall a, P (project a)) -> forall e, In e (view project evs) -> P (snd e).
Proof.
  intros H e He. unfold view in He. apply in_map_iff in He as [e' [<- _]]. apply H.
Qed.

Lemma switchMap_orderly {A B} (tie : nat -> nat -> bool) (project : A -> Observable B)
    (src : Observable A) :
  orderly src -> unfailing src -> (forall a, orderly (project a)) ->
  orderly (Rx.switchMap tie project src).
Proof.
  intros Hsrc Hunf Hproj t0 h Hle. rewrite switchMap_values by apply Hunf.
  apply switchAll_timeline.
  - apply (view_In project _ orderly Hproj).
  - apply (timeline_view project), Hsrc, Hle.
Qed.

Lemma switchMap_unfailing {A B} (tie : nat -> nat -> bool) (project : A -> Observable B)
    (src : Observable A) :
  unfailing src -> (forall a, unfailing (project a)) ->
  unfailing (Rx.switchMap tie project src).
Proof.
  intros Hunf Hproj t0 h. unfold Rx.switchMap. cbv zeta. cbn [failure].
  rewrite (Hunf t0 h). simpl.
  rewrite switchAll_unfailing; [reflexivity|].
  apply (view_In project _ unfailing Hproj).
Qed.

Lemma switchMap_cached {A B} (tie : nat -> nat -> bool) (project : A -> Observable B)
    (src : Observable A) (t0 h i t : nat) (a : A) (T : nat) (v : B) :
  orderly src -> unfailing src ->
  (forall a, orderly (project a)) -> (forall a, unfailing (project a)) ->
  t0 <= h ->
  values (src t0 h) !! i = Some (t, a) ->
  T < phaseEnd (values (src t0 h)) i h ->
  cached (values (project a t (horizon tie (values (src t0 h)) i h))) T = Some v ->
  cached (values (Rx.switchMap tie project src t0 h)) T = Some v.
Proof.
  intros Hsrc Hunf Hproj Hprojf Hle Hi HT Hv. rewrite switchMap_values by apply Hunf.
  apply (switchAll_cached tie _ t0 h i t (project a)).
  - apply (view_In project _ orderly Hproj).
  - apply (view_In project _ unfailing Hprojf).
  - apply timeline_view, Hsrc, Hle.
  - rewrite lookup_view, Hi. reflexivity.
  - now rewrite phaseEnd_view.
  - now rewrite horizon_view.
Qed.

(** ** Timers and promises *)

Lemma of_orderly {A} (v : A) : orderly (Rx.of_ v).
Proof.
  intros t0 h Hle. unfold Rx.of_.
  destruct (Nat.ltb_spec t0 h); simpl; lia.
Qed.

Lemma of_unfailing {A} (v : A) : unfailing (Rx.of_ v).
Proof. intros t0 h. unfold Rx.of_. destruct (t0 <? h); reflexivity. Qed.

Lemma from_orderly {A} (task : Task A) : orderly (Rx.from task).
Proof.
  intros t0 h Hle. unfold Rx.from. destruct (task t0) as [latency [e|v]];
    destruct (Nat.ltb_spec (t0 + latency) h); simpl; lia.
Qed.

(** What the catch is for: a promise that is never rejected makes a stream
    that never fails. *)
Lemma from_unfailing {A} (task : Task A) : neverRejects task -> unfailing (Rx.from task).
Proof.
  intros H t0 h. unfold Rx.from. destruct (H t0) as [x Hx].
  destruct (task t0) as [latency r]. simpl in Hx. subst r.
  destruct (t0 + latency <? h); reflexivity.
Qed.

Lemma from_cached {A} (task : Task A) (t h T : nat) (v : A) :
  snd (task t) = Right v ->
  t + fst (task t) <= T -> t + fst (task t) < h ->
  cached (values (Rx.from task t h)) T = Some v.
Proof.
  intros Hv HT H. unfold Rx.from. destruct (task t) as [latency r]. simpl in *. subst r.
  destruct (Nat.ltb_spec (t + latency) h); [|lia].
  now apply cached_singleton.
Qed.

Lemma from_In {A} (task : Task A) (t h : nat) (e : nat * A) :
  In e (values (Rx.from task t h))
  <-> snd (task t) = Right (snd e) /\ fst e = t + fst (task t) /\ fst e < h.
Proof.
  unfold Rx.from. destruct (task t) as [latency [reason|v]]; simpl;
    destruct (Nat.ltb_spec (t + latency) h) as [Hlt|Hge]; simpl.
  - split; [tauto|]. intros [Hv _]. discriminate.
  - split; [tauto|]. intros [Hv _]. discriminate.
  - split.
    + intros [<-|[]]. simpl. auto.
    + intros ([= Hv] & Hf & _). left. destruct e as [te ve]. simpl in *. congruence.
  - split; [tauto|]. intros (_ & Hf & Hlt). lia.
Qed.

Lemma interval_count (period t0 h j : nat) :
  0 < period -> (j < (h - t0 - 1) / period <-> t0 + S j * period < h).
Proof.
  intros Hp.
  pose proof (Nat.div_mod_eq (h - t0 - 1) period) as Hdiv.
  pose proof (Nat.mod_upper_bound (h - t0 - 1) period ltac:(lia)) as Hmod.
  split; intros H; nia.
Qed.

Lemma interval_lookup (period t0 h j : nat) :
  values (Rx.interval period t0 h) !! j
  = if decide (j < (h - t0 - 1) / period) then Some (t0 + S j * period, j) else None.
Proof.
  unfold Rx.interval. cbn [values]. rewrite list_lookup_fmap.
  destruct (decide (j < (h - t0 - 1) / period)) as [Hlt|Hge].
  - rewrite (proj2 (lookup_seq 0 _ j j)) by lia. reflexivity.
  - rewrite (lookup_ge_None_2 (seq 0 _) j); [reflexivity|]. rewrite length_seq. lia.
Qed.

Lemma interval_timeline (period t0 h : nat) :
  0 < period -> t0 < h -> timeline t0 (values (Rx.interval period t0 h)) h.
Proof.
  intros Hp Hlt. unfold Rx.interval. cbn [values].
  assert (Hall : forall j, j < (h - t0 - 1) / period -> t0 + S j * period < h).
  { intros j. apply interval_count, Hp. }
  revert Hall. generalize ((h - t0 - 1) / period) as n. intros n.
  assert (Hgen : forall a lo,
             lo <= t0 + S a * period -> lo <= h ->
             (forall j, j < a + n -> t0 + S j * period < h) ->
             timeline lo (List.map (fun k => (t0 + S k * period, k)) (seq a n)) h).
  { induction n as [|n IH]; intros a lo Hlo Hh Hall; simpl; [exact Hh|].
    pose proof (Hall a ltac:(lia)) as Ha.
    split; [exact Hlo|]. split; [exact Ha|]. apply IH.
    - nia.
    - lia.
    - intros j Hj. apply Hall. lia. }
  intros Hall. apply Hgen; [nia|lia|]. intros j Hj. apply Hall. lia.
Qed.

Lemma ticks_orderly (period : nat) : 0 < period -> orderly (ticks period).
Proof.
  intros Hp t0 h Hle. unfold ticks, Rx.startWith.
  destruct (Nat.ltb_spec t0 h); simpl; [|lia].
  split; [lia|]. split; [lia|]. now apply interval_timeline.
Qed.

Lemma ticks_unfailing (period : nat) : unfailing (ticks period).
Proof.
  intros t0 h. unfold ticks, Rx.startWith. destruct (t0 <? h); reflexivity.
Qed.

(** The [k]-th tick comes [k] periods after the subscription. *)
Lemma ticks_lookup (period t0 h k : nat) :
  0 < period -> t0 + k * period < h ->
  exists v, values (ticks period t0 h) !! k = Some (t0 + k * period, v).
Proof.
  intros Hp Hk. unfold ticks, Rx.startWith.
  destruct (Nat.ltb_spec t0 h); [|nia]. cbn [values].
  destruct k as [|k].
  - exists 0. simpl. f_equal. f_equal. lia.
  - exists k. change (values (Rx.interval period t0 h) !! k = Some (t0 + S k * period, k)).
    rewrite interval_lookup.
    destruct (decide (k < (h - t0 - 1) / period)) as [Hlt|Hge]; [reflexivity|].
    exfalso. apply Hge. apply interval_count; [exact Hp|]. lia.
Qed.

Lemma ticks_lookup_inv (period t0 h k t a : nat) :
  0 < period -> values (ticks period t0 h) !! k = Some (t, a) ->
  t = t0 + k * period /\ t < h.
Proof.
  intros Hp. unfold ticks, Rx.startWith.
  destruct (Nat.ltb_spec t0 h); [|discriminate]. cbn [values].
  destruct k as [|k].
  - simpl. intros [= <- <-]. lia.
  - change (values (Rx.interval period t0 h) !! k = Some (t, a) ->
            t = t0 + S k * period /\ t < h).
    rewrite interval_lookup.
    destruct (decide (k < (h - t0 - 1) / period)) as [Hlt|]; [|discriminate].
    intros [= <- <-]. apply interval_count in Hlt; [|exact Hp]. lia.
Qed.

Lemma ticks_lookup_None (period t0 h k : nat) :
  0 < period -> ~ t0 + k * period < h -> values (ticks period t0 h) !! k = None.
Proof.
  intros Hp Hk. destruct (values (ticks period t0 h) !! k) as [[t a]|] eqn:Hlook;
    [|reflexivity].
  apply ticks_lookup_inv in Hlook as [-> Hlt]; [|exact Hp]. contradiction.
Qed.

Lemma ticks_phaseEnd (period t0 h k : nat) :
  0 < period -> t0 + k * period < h ->
  phaseEnd (values (ticks period t0 h)) k h = Nat.min (t0 + k * period + period) h.
Proof.
  intros Hp Hk. unfold phaseEnd.
  destruct (decide (t0 + S k * period < h)) as [Hlt|Hge].
  - destruct (ticks_lookup period t0 h (S k) Hp Hlt) as [v ->]. simpl. lia.
  - rewrite ticks_lookup_None by assumption. simpl. lia.
Qed.

(** The poll of the [k]-th tick is listened to until the next tick, that
    instant included where the tie goes to the poll. *)
Lemma ticks_horizon (tie : nat -> nat -> bool) (period t0 h k T : nat) :
  0 < period -> t0 + k * period < h ->
  T < horizon tie (values (ticks period t0 h)) k h
  <-> T < h /\ (T < t0 + k * period + period
                \/ T = t0 + k * period + period
                   /\ tie (t0 + k * period) (t0 + k * period + period) = true).
Proof.
  intros Hp Hk. unfold horizon.
  destruct (ticks_lookup period t0 h k Hp Hk) as [v ->].
  destruct (decide (t0 + S k * period < h)) as [Hlt|Hge].
  - destruct (ticks_lookup period t0 h (S k) Hp Hlt) as [v' ->]. cbn [fst].
    replace (t0 + S k * period) with (t0 + k * period + period) in * by lia.
    destruct (tie (t0 + k * period) (t0 + k * period + period)).
    + split; [intros HT; split; [lia|]; destruct (decide (T = t0 + k * period + period));
                [right; auto|left; lia]
             |intros [_ [HT|[HT _]]]; lia].
    + split; [intros HT; split; [lia|left; exact HT]
             |intros [_ [HT|[_ HT]]]; [lia|discriminate]].
  - rewrite ticks_lookup_None by assumption.
    split; [intros HT; split; [exact HT|left; lia]|tauto].
Qed.

(** ** Polling loops *)

Lemma POLL_INTERVAL_pos : 0 < POLL_INTERVAL.
Proof. unfold POLL_INTERVAL. lia. Qed.

Lemma pollingLoop_values {A} (tie : nat -> nat -> bool) (task : Task A) (t0 h : nat) :
  values (pollingLoop tie task t0 h)
  = values (Rx.switchAll tie
              (view (fun _ : nat => Rx.from task) (values (ticks POLL_INTERVAL t0 h))) h).
Proof. apply (switchMap_values tie _ (ticks POLL_INTERVAL)), ticks_unfailing. Qed.

Lemma pollingLoop_orderly {A} (tie : nat -> nat -> bool) (task : Task A) :
  orderly (pollingLoop tie task).
Proof.
  apply (switchMap_orderly tie _ (ticks POLL_INTERVAL)).
  - apply ticks_orderly, POLL_INTERVAL_pos.
  - apply ticks_unfailing.
  - intros _. apply from_orderly.
Qed.

(** A loop of polls that are never rejected goes on for ever. *)
Lemma pollingLoop_unfailing {A} (tie : nat -> nat -> bool) (task : Task A) :
  neverRejects task -> unfailing (pollingLoop tie task).
Proof.
  intros H. apply (switchMap_unfailing tie _ (ticks POLL_INTERVAL)).
  - apply ticks_unfailing.
  - intros _. apply from_unfailing, H.
Qed.

(** The poll started at the [k]-th tick, if it ends before the next tick, is
    what the loop holds from then until the next tick; no other poll has a
    say in this. *)
Lemma pollingLoop_cached {A} (tie : nat -> nat -> bool) (task : Task A)
    (t h k T : nat) (v : A) :
  neverRejects task ->
  snd (task (t + k * POLL_INTERVAL)) = Right v ->
  t + k * POLL_INTERVAL + fst (task (t + k * POLL_INTERVAL)) <= T ->
  T < Nat.min (t + k * POLL_INTERVAL + POLL_INTERVAL) h ->
  cached (values (pollingLoop tie task t h)) T = Some v.
Proof.
  intros Hnr Hv Hsettled HT. set (tick := t + k * POLL_INTERVAL) in *.
  pose proof POLL_INTERVAL_pos as Hp.
  assert (Htick : t + k * POLL_INTERVAL < h) by (fold tick; lia).
  destruct (ticks_lookup POLL_INTERVAL t h k Hp Htick) as [a Ha].
  pose proof (ticks_phaseEnd POLL_INTERVAL t h k Hp Htick) as Hend.
  fold tick in Hend, Ha.
  assert (Htl : timeline t (values (ticks POLL_INTERVAL t h)) h).
  { apply ticks_orderly; [exact Hp|]. unfold tick in *. lia. }
  destruct (horizon_bounds tie _ _ _ _ _ Htl Ha) as [Hhz _].
  apply (switchMap_cached tie (fun _ : nat => Rx.from task) (ticks POLL_INTERVAL)
           t h k tick a).
  - now apply ticks_orderly.
  - apply ticks_unfailing.
  - intros _. apply from_orderly.
  - intros _. apply from_unfailing, Hnr.
  - unfold tick in *. lia.
  - exact Ha.
  - lia.
  - apply from_cached; [exact Hv|exact Hsettled|lia].
Qed.

(** A loop of polls that are never rejected delivers exactly the polls that
    end before the next tick (or at the very instant of the next tick, where
    the tie goes to the poll), each when it ends. *)
Lemma pollingLoop_In {A} (tie : nat -> nat -> bool) (task : Task A) (t0 h T : nat) (v : A) :
  neverRejects task ->
  In (T, v) (values (pollingLoop tie task t0 h))
  <-> exists k,
        let tick := t0 + k * POLL_INTERVAL in
        T = tick + fst (task tick)
        /\ snd (task tick) = Right v
        /\ T < h
        /\ (T < tick + POLL_INTERVAL
            \/ T = tick + POLL_INTERVAL /\ tie tick (tick + POLL_INTERVAL) = true).
Proof.
  intros Hnr. pose proof POLL_INTERVAL_pos as Hp.
  rewrite pollingLoop_values. split.
  - intros Hin. apply switchAll_In in Hin as (k & t & inner & Hk & Hin).
    rewrite lookup_view in Hk.
    destruct (values (ticks POLL_INTERVAL t0 h) !! k) as [[t' a]|] eqn:Hlook; [|discriminate].
    simpl in Hk. injection Hk as <- <-.
    destruct (ticks_lookup_inv _ _ _ _ _ _ Hp Hlook) as [-> Hlt].
    rewrite horizon_view in Hin.
    apply from_In in Hin as (Hv & HT & Hhz). simpl in Hv, HT, Hhz.
    apply ticks_horizon in Hhz; [|exact Hp|exact Hlt].
    exists k. cbv zeta. split; [exact HT|]. split; [exact Hv|]. exact Hhz.
  - intros (k & HT & Hv & Hh & Hnext). cbv zeta in *.
    assert (Hlt : t0 + k * POLL_INTERVAL < h) by lia.
    destruct (ticks_lookup POLL_INTERVAL t0 h k Hp Hlt) as [a Ha].
    apply (switchAll_In_inv tie _ h _ k (t0 + k * POLL_INTERVAL) (Rx.from task)).
    + apply (view_In _ _ unfailing). intros _. apply from_unfailing, Hnr.
    + rewrite lookup_view, Ha. reflexivity.
    + rewrite horizon_view. apply from_In. simpl.
      split; [exact Hv|]. split; [exact HT|].
      apply ticks_horizon; [exact Hp|exact Hlt|]. split; [exact Hh|exact Hnext].
Qed.

(** ** Tasks that are never rejected *)

Lemma tryCatch_neverRejects {A} (f : Async A) (onRejected : Error -> Error) :
  neverRejects (TE.tryCatch f onRejected).
Proof.
  intros t. unfold TE.tryCatch. destruct (f t) as [latency r]. simpl. eauto.
Qed.

Lemma settled_neverRejects {X} (task : Task X) (latency : nat -> nat) (value : nat -> X) :
  (forall t, task t = (latency t, Right (value t))) -> neverRejects task.
Proof. intros H t. rewrite H. simpl. eauto. Qed.

(** ** The power stream and the on/off signal *)

Section PowerStream.

Variable tie : nat -> nat -> bool.
Variable getPowerState : Async PowerStateData.

Lemma power_values (t0 h : nat) :
  values (power tie getPowerState t0 h)
  = view (fun either => match either with Right r => Some r | Left _ => None end)
      (values (pollingLoop tie (fetchPowerState getPowerState) t0 h)).
Proof. reflexivity. Qed.

Lemma power_orderly : orderly (power tie getPowerState).
Proof.
  intros t0 h Hle. rewrite power_values. apply timeline_view, pollingLoop_orderly, Hle.
Qed.

(** The fetch is wrapped in a catch, so the power stream never ends. *)
Lemma power_unfailing : unfailing (power tie getPowerState).
Proof.
  intros t0 h.
  apply (pollingLoop_unfailing tie (fetchPowerState getPowerState)).
  apply tryCatch_neverRejects.
Qed.

Lemma distinctFrom_timeline (previous : option bool) (lo h : nat) (evs : list (nat * bool)) :
  timeline lo evs h -> timeline lo (Rx.distinctFrom previous evs) h.
Proof.
  revert previous lo. induction evs as [|[t v] evs IH]; simpl; intros previous lo H; [exact H|].
  destruct H as (H1 & H2 & H3). destruct (bool_decide (previous = Some v)).
  - apply IH. eapply timeline_weaken; [exact H3|lia|lia].
  - simpl. split; [exact H1|]. split; [exact H2|]. apply IH, H3.
Qed.

Lemma isProjectorOn_values (t0 h : nat) :
  values (isProjectorOn tie getPowerState t0 h)
  = Rx.distinctFrom None (view signalOf (values (power tie getPowerState t0 h))).
Proof. reflexivity. Qed.

Lemma isProjectorOn_orderly : orderly (isProjectorOn tie getPowerState).
Proof.
  intros t0 h Hle. rewrite isProjectorOn_values.
  apply distinctFrom_timeline, timeline_view, power_orderly, Hle.
Qed.

Lemma isProjectorOn_unfailing : unfailing (isProjectorOn tie getPowerState).
Proof. intros t0 h. apply power_unfailing. Qed.

(** Every two seconds from the subscription on, whatever the earlier polls
    gave, the poll started then decides what the stream holds from the
    instant it ends until the next poll starts: the snapshot fetched, or none
    if the fetch failed. *)
Lemma power_cached (t0 h k T : nat) :
  t0 + k * POLL_INTERVAL + fst (getPowerState (t0 + k * POLL_INTERVAL)) <= T ->
  T < Nat.min (t0 + k * POLL_INTERVAL + POLL_INTERVAL) h ->
  cached (values (power tie getPowerState t0 h)) T
  = Some (match snd (getPowerState (t0 + k * POLL_INTERVAL)) with
          | Right s => Some s
          | Left _ => None
          end).
Proof.
  intros Hs HT. set (tick := t0 + k * POLL_INTERVAL) in *.
  rewrite power_values, cached_view.
  rewrite (pollingLoop_cached tie (fetchPowerState getPowerState) t0 h k T
             (match snd (getPowerState tick) with
              | Right s => Right s
              | Left e => Left ("Failed to fetch power state: " +:+ e)
              end)).
  - simpl. destruct (snd (getPowerState tick)); reflexivity.
  - apply tryCatch_neverRejects.
  - fold tick. unfold fetchPowerState, TE.tryCatch.
    destruct (getPowerState tick) as [l [e|s]]; reflexivity.
  - fold tick.
    replace (fst (fetchPowerState getPowerState tick)) with (fst (getPowerState tick));
      [exact Hs|].
    unfold fetchPowerState, TE.tryCatch. destruct (getPowerState tick); reflexivity.
  - exact HT.
Qed.

End PowerStream.

(** ** Conditional pollers *)

Section ConditionalPoller.

Context {T : Type}.
Variable tie : nat -> nat -> bool.
Variable condition : Observable bool.
Variable task : TaskEither (option T).
Hypothesis condition_orderly : orderly condition.
Hypothesis condition_unfailing : unfailing condition.

Lemma branch_orderly (isOn : bool) :
  orderly (if isOn
           then pollingLoop tie (then_ (E.getOrElse (fun _ => None)) task)
           else Rx.of_ None).
Proof.
  destruct isOn.
  - apply pollingLoop_orderly.
  - apply of_orderly.
Qed.

Lemma conditional_values (t0 h : nat) :
  values (createConditionalPoller tie condition task t0 h)
  = values (Rx.switchAll tie
              (view (fun isOn : bool =>
                       if isOn
                       then pollingLoop tie (then_ (E.getOrElse (fun _ => None)) task)
                       else Rx.of_ None)
                 (values (condition t0 h))) h).
Proof.
  unfold createConditionalPoller, Rx.shareReplay.
  apply (switchMap_values tie _ condition), condition_unfailing.
Qed.

Lemma conditional_orderly : orderly (createConditionalPoller tie condition task).
Proof.
  intros t0 h Hle. rewrite conditional_values. apply switchAll_timeline.
  - apply (view_In _ _ orderly branch_orderly).
  - apply timeline_view, condition_orderly, Hle.
Qed.

(** From here on the task's promise is never rejected. *)
Hypothesis loop_neverRejects : neverRejects (then_ (E.getOrElse (fun _ => None)) task).

Lemma branch_unfailing (isOn : bool) :
  unfailing (if isOn
             then pollingLoop tie (then_ (E.getOrElse (fun _ => None)) task)
             else Rx.of_ None).
Proof.
  destruct isOn.
  - apply pollingLoop_unfailing, loop_neverRejects.
  - apply of_unfailing.
Qed.

Lemma conditional_cached (t0 h i t : nat) (isOn : bool) (U : nat) (v : option T) :
  t0 <= h ->
  values (condition t0 h) !! i = Some (t, isOn) ->
  U < phaseEnd (values (condition t0 h)) i h ->
  cached (values ((if isOn
                   then pollingLoop tie (then_ (E.getOrElse (fun _ => None)) task)
                   else Rx.of_ None) t (horizon tie (values (condition t0 h)) i h))) U
  = Some v ->
  cached (values (createConditionalPoller tie condition task t0 h)) U = Some v.
Proof.
  intros Hle Hi HU Hv. rewrite conditional_values.
  apply (switchAll_cached tie _ t0 h i t
           (if isOn
            then pollingLoop tie (then_ (E.getOrElse (fun _ => None)) task)
            else Rx.of_ None)).
  - apply (view_In _ _ orderly branch_orderly).
  - apply (view_In _ _ unfailing branch_unfailing).
  - apply timeline_view, condition_orderly, Hle.
  - rewrite lookup_view, Hi. reflexivity.
  - now rewrite phaseEnd_view.
  - now rewrite horizon_view.
Qed.

Lemma conditional_idle (t0 h : nat) :
  t0 <= h ->
  idleIsNone None (values (condition t0 h)) h
    (values (createConditionalPoller tie condition task t0 h)).
Proof.
  intros Hle i t U Hi HU.
  pose proof (condition_orderly t0 h Hle) as Htl.
  destruct (horizon_bounds tie _ _ _ _ _ Htl Hi) as [Hhz _].
  apply (conditional_cached t0 h i t false); [exact Hle|exact Hi|lia|].
  unfold Rx.of_.
  destruct (Nat.ltb_spec t (horizon tie (values (condition t0 h)) i h)); [|lia].
  apply cached_singleton. lia.
Qed.

Lemma conditional_polls (res : nat -> nat * option T) (t0 h : nat) :
  (forall t, then_ (E.getOrElse (fun _ => None)) task t = (fst (res t), Right (snd (res t)))) ->
  t0 <= h ->
  pollsWhileOn (values (condition t0 h)) h
    (values (createConditionalPoller tie condition task t0 h)) res.
Proof.
  intros Hres Hle i t k U Hi tick Hs HU.
  pose proof (condition_orderly t0 h Hle) as Htl.
  destruct (horizon_bounds tie _ _ _ _ _ Htl Hi) as [Hhz _].
  apply (conditional_cached t0 h i t true); [exact Hle|exact Hi|lia|].
  apply (pollingLoop_cached tie (then_ (E.getOrElse (fun _ => None)) task) t _ k U).
  - exact loop_neverRejects.
  - fold tick. rewrite Hres. reflexivity.
  - fold tick. rewrite Hres. exact Hs.
  - fold tick. lia.
Qed.

End ConditionalPoller.

Lemma pollsWhileOn_ext {W} (signal : list (nat * bool)) (h : nat) (out : list (nat * W))
    (f g : nat -> nat * W) :
  (forall t, f t = g t) -> pollsWhileOn signal h out f -> pollsWhileOn signal h out g.
Proof.
  intros Hfg Hf i t k U Hi tick Hs HU. rewrite <- Hfg in *. now apply (Hf i t k U).
Qed.

Lemma idleIsNone_view {V W} (f : V -> W) (none : V) (signal : list (nat * bool)) (h : nat)
    (out : list (nat * V)) :
  idleIsNone none signal h out -> idleIsNone (f none) signal h (view f out).
Proof.
  intros H i t U Hi HU. rewrite cached_view, (H i t U Hi HU). reflexivity.
Qed.

Lemma pollsWhileOn_view {V W} (f : V -> W) (signal : list (nat * bool)) (h : nat)
    (out : list (nat * V)) (g : nat -> nat * V) :
  pollsWhileOn signal h out g ->
  pollsWhileOn signal h (view f out) (fun t => (fst (g t), f (snd (g t)))).
Proof.
  intros H i t k U Hi tick Hs HU. cbn [fst snd] in *.
  rewrite cached_view. subst tick. rewrite (H i t k U Hi Hs HU). reflexivity.
Qed.

(** A read that fails is recovered to none, one that succeeds keeps its
    value, neither changes when the poll ends, and the promise of the poll
    is fulfilled either way. *)
Lemma createPollingTask_tick {T} (fetchFn : Async T) (errorMsg : string) (t : nat) :
  then_ (E.getOrElse (fun _ => None)) (createPollingTask fetchFn errorMsg) t
  = (fst (valueOrNone fetchFn t), Right (snd (valueOrNone fetchFn t))).
Proof.
  unfold then_, createPollingTask, TE.orElse, TE.map, TE.tryCatch, TE.of_, valueOrNone.
  destruct (fetchFn t) as [latency [e|v]]; simpl; [|reflexivity].
  now rewrite Nat.add_0_r.
Qed.

Lemma Promise_all_rejected {A B C} (a : Promise A) (b : Promise B) (c : Promise C) :
  (exists e, snd a = Left e) \/ (exists e, snd b = Left e) \/ (exists e, snd c = Left e) ->
  exists l e, Promise_all a b c = (l, Left e).
Proof.
  intros H. unfold Promise_all, firstRejection.
  destruct a as [la [ea|x]], b as [lb [eb|y]], c as [lc [ec|z]]; simpl in *;
    try (destruct H as [[? H]|[[? H]|[? H]]]; discriminate);
    repeat match goal with
           | |- context [if ?l1 <=? ?l2 then _ else _] => destruct (l1 <=? l2)
           end; eauto.
Qed.

Lemma fetchPictureSettings_tick (getBrightness getContrast getSharpness : Async (option Z))
    (t : nat) :
  then_ (E.getOrElse (fun _ => None))
        (TE.map Some (fetchPictureSettings getBrightness getContrast getSharpness)) t
  = (fst (Promise_all (getBrightness t) (getContrast t) (getSharpness t)),
     Right (Some (match snd (getBrightness t), snd (getContrast t), snd (getSharpness t) with
                  | Right b, Right c, Right s =>
                      {| brightness := b; contrast := c; sharpness := s |}
                  | _, _, _ => {| brightness := None; contrast := None; sharpness := None |}
                  end))).
Proof.
  unfold then_, fetchPictureSettings, TE.orElse, TE.map, TE.tryCatch, TE.of_.
  destruct (snd (getBrightness t)) as [eb|b] eqn:Hb;
    [|destruct (snd (getContrast t)) as [ec|c] eqn:Hc;
      [|destruct (snd (getSharpness t)) as [es|s] eqn:Hs]].
  4: { destruct (getBrightness t) as [lb rb], (getContrast t) as [lc rc],
         (getSharpness t) as [ls rs]; simpl in *; subst. reflexivity. }
  all: destruct (Promise_all_rejected (getBrightness t) (getContrast t) (getSharpness t))
         as [l [e He]]; [eauto 6|].
  all: rewrite He; simpl; now rewrite Nat.add_0_r.
Qed.

(** ** The dashboard's requests *)

Lemma getPowerStateOver_tick (net : Backend) (t0 k : nat) :
  getPowerStateOver net t0 (t0 + k * POLL_INTERVAL)
  = (roundTrip net k,
     if answered net k
     then Right (manager (snd (run (envAt net k) getPowerStateRoute (serverAt net k))))
     else Left "Failed to fetch"%string).
Proof.
  unfold getPowerStateOver. cbv zeta.
  replace ((t0 + k * POLL_INTERVAL - t0) / POLL_INTERVAL) with k.
  - rewrite run_getPowerStateRoute. reflexivity.
  - rewrite Nat.add_comm, Nat.add_sub. symmetry. apply Nat.div_mul.
    pose proof POLL_INTERVAL_pos. lia.
Qed.

(** ** The pollers of the dashboard *)

Section Pollers.

Variable tie : nat -> nat -> bool.
Variable getPowerState : Async PowerStateData.
Variables Temperature FanSpeed Volume PictureMode : Type.
Variable getTemperature : Async Temperature.
Variable getFanSpeed : Async FanSpeed.
Variable getVolume : Async Volume.
Variable getPictureMode : Async PictureMode.
Variables getBrightness getContrast getSharpness : Async (option Z).

Lemma simple_poller_follows {T} (fetchFn : Async T) (errorMsg : string) (t0 h : nat) :
  t0 <= h ->
  followsSignal None (values (isProjectorOn tie getPowerState t0 h)) h
    (values (createConditionalPoller tie (isProjectorOn tie getPowerState)
               (createPollingTask fetchFn errorMsg) t0 h))
    (valueOrNone fetchFn).
Proof.
  intros Hle.
  assert (Hnr : neverRejects (then_ (E.getOrElse (fun _ => None))
                                (createPollingTask fetchFn errorMsg))).
  { eapply settled_neverRejects. intros t. apply createPollingTask_tick. }
  split.
  - apply conditional_idle;
      [apply isProjectorOn_orderly|apply isProjectorOn_unfailing|exact Hnr|exact Hle].
  - apply conditional_polls;
      [apply isProjectorOn_orderly|apply isProjectorOn_unfailing|exact Hnr
      |intros t; apply createPollingTask_tick|exact Hle].
Qed.

Lemma pictureSettings_neverRejects :
  neverRejects (then_ (E.getOrElse (fun _ => None))
                  (TE.map Some (fetchPictureSettings getBrightness getContrast getSharpness))).
Proof. eapply settled_neverRejects. intros t. apply fetchPictureSettings_tick. Qed.

Lemma allOrNone_metrics (t : nat) :
  allOrNone getBrightness getContrast getSharpness t
  = (fst (Promise_all (getBrightness t) (getContrast t) (getSharpness t)),
     metrics (Some (match snd (getBrightness t), snd (getContrast t), snd (getSharpness t) with
                    | Right b, Right c, Right s =>
                        {| brightness := b; contrast := c; sharpness := s |}
                    | _, _, _ =>
                        {| brightness := None; contrast := None; sharpness := None |}
                    end))).
Proof.
  unfold allOrNone. f_equal.
  destruct (snd (getBrightness t)), (snd (getContrast t)), (snd (getSharpness t));
    reflexivity.
Qed.

(** C5 (as amended). Each conditional poller (temperature, fan speed,
    volume, picture mode, picture settings) follows the derived on/off
    signal: from the instant the signal turns off until it changes, the
    poller holds none; from the instant it turns on, a poll starts at once
    and then every [POLL_INTERVAL]; a poll that has ended before the next one
    starts (and before the signal changes) decides the value held from the
    instant it ended until the next poll starts (or the signal changes): the
    value read, or none if its read failed, whatever the other polls did and
    however ties are resolved. For the picture settings the value held is
    read as its three metric entries. *)
Theorem conditional_pollers_follow_signal (t0 h : nat) :
  t0 <= h ->
  let signal := values (isProjectorOn tie getPowerState t0 h) in
  followsSignal None signal h
    (values (temperature tie getPowerState Temperature getTemperature t0 h))
    (valueOrNone getTemperature)
  /\ followsSignal None signal h
       (values (fanSpeed tie getPowerState FanSpeed getFanSpeed t0 h))
       (valueOrNone getFanSpeed)
  /\ followsSignal None signal h
       (values (volume tie getPowerState Volume getVolume t0 h))
       (valueOrNone getVolume)
  /\ followsSignal None signal h
       (values (pictureMode tie getPowerState PictureMode getPictureMode t0 h))
       (valueOrNone getPictureMode)
  /\ followsSignal (None, None, None) signal h
       (view metrics
          (values (pictureSettings tie getPowerState getBrightness getContrast getSharpness
                     t0 h)))
       (allOrNone getBrightness getContrast getSharpness).
Proof.
  intros Hle signal.
  repeat (split; [now apply simple_poller_follows|]).
  split.
  - apply (idleIsNone_view metrics None).
    apply conditional_idle;
      [apply isProjectorOn_orderly|apply isProjectorOn_unfailing
      |apply pictureSettings_neverRejects|exact Hle].
  - eapply pollsWhileOn_ext; [intros t; symmetry; apply allOrNone_metrics|].
    apply (pollsWhileOn_view metrics _ _ _
             (fun t => (fst (Promise_all (getBrightness t) (getContrast t) (getSharpness t)),
                        Some (match snd (getBrightness t), snd (getContrast t),
                                    snd (getSharpness t) with
                              | Right b, Right c, Right s =>
                                  {| brightness := b; contrast := c; sharpness := s |}
                              | _, _, _ =>
                                  {| brightness := None; contrast := None;
                                     sharpness := None |}
                              end)))).
    apply conditional_polls;
      [apply isProjectorOn_orderly|apply isProjectorOn_unfailing
      |apply pictureSettings_neverRejects
      |intros t; apply fetchPictureSettings_tick|exact Hle].
Qed.

(** C10 (as amended). A poll of the picture settings that has ended before
    the next one starts (and before the signal changes) leaves the stream
    holding, from that instant until the next poll starts, the three values
    read if all three reads succeeded, and the triple of nones if any of
    them failed. *)
Theorem pictureSettings_all_or_nothing (t0 h i t k T : nat) :
  t0 <= h ->
  values (isProjectorOn tie getPowerState t0 h) !! i = Some (t, true) ->
  let tick := t + k * POLL_INTERVAL in
  let settled := fst (Promise_all (getBrightness tick) (getContrast tick) (getSharpness tick)) in
  tick + settled <= T ->
  T < Nat.min (tick + POLL_INTERVAL)
        (phaseEnd (values (isProjectorOn tie getPowerState t0 h)) i h) ->
  cached (values (pictureSettings tie getPowerState getBrightness getContrast getSharpness
                    t0 h)) T
  = Some (Some (match snd (getBrightness tick), snd (getContrast tick),
                      snd (getSharpness tick) with
                | Right b, Right c, Right s =>
                    {| brightness := b; contrast := c; sharpness := s |}
                | _, _, _ =>
                    {| brightness := None; contrast := None; sharpness := None |}
                end)).
Proof.
  intros Hle Hi tick settled Hsettled HT.
  pose proof (conditional_polls tie (isProjectorOn tie getPowerState)
                (TE.map Some (fetchPictureSettings getBrightness getContrast getSharpness))
                (isProjectorOn_orderly tie getPowerState)
                (isProjectorOn_unfailing tie getPowerState)
                pictureSettings_neverRejects
                (fun t => (fst (Promise_all (getBrightness t) (getContrast t)
                                  (getSharpness t)),
                           Some (match snd (getBrightness t), snd (getContrast t),
                                       snd (getSharpness t) with
                                 | Right b, Right c, Right s =>
                                     {| brightness := b; contrast := c; sharpness := s |}
                                 | _, _, _ =>
                                     {| brightness := None; contrast := None;
                                        sharpness := None |}
                                 end)))
                t0 h (fetchPictureSettings_tick getBrightness getContrast getSharpness)
                Hle i t k T Hi) as Hpoll.
  cbv zeta in Hpoll. cbn [fst snd] in Hpoll.
  apply Hpoll; [exact Hsettled|exact HT].
Qed.

End Pollers.

(** C6 (as amended). The power stream polls on a fixed period of 2000ms, the
    first poll at once on subscription, whatever the earlier polls gave and
    however ties are resolved. The request of the poll started at
    [t0 + k * 2000] makes the server issue [getPowerStatus] to the device
    and feed the reading into [updateFromProjector] (the raw flag, or none if
    the read failed); once the poll has ended, before the next one starts,
    the stream holds from that instant until the next poll starts the
    snapshot the server then has, or none if no response came back. *)
Theorem power_poller (tie : nat -> nat -> bool) (net : Backend) (t0 h k T : nat) :
  let tick := t0 + k * 2000 in
  let env := envAt net k in
  let served := snd (run env getPowerStateRoute (serverAt net k)) in
  let reading := E.getOrElse (fun _ => None) (device env _ getPowerStatus) in
  tick + roundTrip net k <= T ->
  T < Nat.min (tick + 2000) h ->
  issuedLog served
  = issuedLog (serverAt net k) ++ [(Issued getPowerStatus, manager (serverAt net k))]
  /\ manager served
     = updateFromProjector (clock env (clockReads (serverAt net k)))
         (manager (serverAt net k)) reading
  /\ cached (values (power tie (getPowerStateOver net t0) t0 h)) T
     = Some (if answered net k then Some (manager served) else None).
Proof.
  intros tick env served reading Hs HT.
  split; [|split].
  - unfold served. rewrite run_getPowerStateRoute. reflexivity.
  - unfold served. rewrite run_getPowerStateRoute. reflexivity.
  - pose proof (power_cached tie (getPowerStateOver net t0) t0 h k T) as Hc.
    rewrite getPowerStateOver_tick in Hc. cbn [fst snd] in Hc.
    rewrite Hc; [|exact Hs|exact HT].
    fold env. fold served. destruct (answered net k); reflexivity.
Qed.

Lemma conditional_pollers_follow_signal_witness :
  0 <= 4500
  /\ cached (values (temperature tieLost exampleGetPowerState Z exampleGetTemperature 0 4500))
       1000
     = Some (Some 41%Z)
  /\ cached (values (temperature tieLost exampleGetPowerState Z exampleGetTemperature 0 4500))
       3000
     = Some None
  /\ cached (values (temperature tieLost exampleGetPowerState Z exampleGetTemperature 0 4500))
       4200
     = Some None.
Proof.
  destruct (conditional_pollers_follow_signal
              tieLost exampleGetPowerState Z Z Z Z
              exampleGetTemperature exampleGetTemperature
              exampleGetTemperature exampleGetTemperature
              exampleGetBrightness exampleGetContrast exampleGetSharpness
              0 4500 ltac:(lia)) as [[Hidle Hpoll] _].
  split; [lia|]. split; [|split].
  - apply (Hpoll 0 10 0 1000); [reflexivity|apply Nat.leb_le|apply Nat.ltb_lt];
      vm_compute; reflexivity.
  - apply (Hpoll 0 10 1 3000); [reflexivity|apply Nat.leb_le|apply Nat.ltb_lt];
      vm_compute; reflexivity.
  - apply (Hidle 1 4010 4200); [reflexivity|].
    split; [apply Nat.leb_le|apply Nat.ltb_lt]; vm_compute; reflexivity.
Defined.

(** C5 as stated fails: a temperature read that is given up 2500ms after the
    poll of 2010 started reports its failure after the next poll has
    replaced it; the stream goes on holding 41 and never holds none. *)
Lemma conditional_pollers_slow_failure_unseen :
  ~ failedPollYieldsNone None
      (values (isProjectorOn tieLost steadyGetPowerState 0 4500)) 4500
      (values (temperature tieLost steadyGetPowerState Z slowFailingGetTemperature 0 4500))
      (rejectedAt slowFailingGetTemperature).
Proof.
  intros H. specialize (H 0 10 1 eq_refl). cbv zeta in H.
  destruct H as (T & _ & Hc).
  - apply Nat.ltb_lt. vm_compute. reflexivity.
  - exists "timeout"%string. reflexivity.
  - apply cached_In in Hc as [t Hin]. vm_compute in Hin.
    destruct Hin as [Heq|[Heq|[]]]; discriminate.
Qed.

Lemma pictureSettings_all_or_nothing_witness :
  0 <= 4500
  /\ values (isProjectorOn tieLost exampleGetPowerState 0 4500) !! 0 = Some (10, true)
  /\ cached (values (pictureSettings tieLost exampleGetPowerState
                       exampleGetBrightness exampleGetContrast exampleGetSharpness 0 4500))
       3000
     = Some (Some {| brightness := None; contrast := None; sharpness := None |}).
Proof.
  split; [lia|]. split; [reflexivity|].
  apply (pictureSettings_all_or_nothing tieLost exampleGetPowerState
           exampleGetBrightness exampleGetContrast exampleGetSharpness 0 4500 0 10 1 3000).
  - lia.
  - reflexivity.
  - apply Nat.leb_le. vm_compute. reflexivity.
  - apply Nat.ltb_lt. vm_compute. reflexivity.
Defined.

(** C10 as stated fails: with a contrast read that is given up after 2500ms,
    every poll is replaced by the next one before its failure is reported;
    the stream never holds the triple of nones (it holds nothing at all). *)
Lemma pictureSettings_slow_failure_unseen :
  ~ failedPollYieldsNone
      (Some {| brightness := None; contrast := None; sharpness := None |})
      (values (isProjectorOn tieLost steadyGetPowerState 0 4500)) 4500
      (values (pictureSettings tieLost steadyGetPowerState
                 exampleGetBrightness slowFailingGetContrast exampleGetSharpness 0 4500))
      (fun t => rejectedAt exampleGetBrightness t
                \/ rejectedAt slowFailingGetContrast t
                \/ rejectedAt exampleGetSharpness t).
Proof.
  intros H. specialize (H 0 10 0 eq_refl). cbv zeta in H.
  destruct H as (T & _ & Hc).
  - apply Nat.ltb_lt. vm_compute. reflexivity.
  - right. left. exists "timeout"%string. reflexivity.
  - apply cached_In in Hc as [t Hin]. vm_compute in Hin. exact Hin.
Qed.

Lemma power_poller_witness :
  0 + 1 * 2000 + roundTrip exampleBackend 1 <= 3000
  /\ 3000 < Nat.min (0 + 1 * 2000 + 2000) 4500
  /\ cached (values (power (firstPollWins 0) (getPowerStateOver exampleBackend 0) 0 4500)) 3000
     = Some None
  /\ cached (values (power (firstPollWins 0) (getPowerStateOver exampleBackend 0) 0 4500)) 4200
     = Some (Some snapshotOn).
Proof.
  split; [apply Nat.leb_le; vm_compute; reflexivity|].
  split; [apply Nat.ltb_lt; vm_compute; reflexivity|].
  split.
  - refine (proj2 (proj2 (power_poller (firstPollWins 0) exampleBackend 0 4500 1 3000 _ _))).
    + apply Nat.leb_le. vm_compute. reflexivity.
    + apply Nat.ltb_lt. vm_compute. reflexivity.
  - refine (proj2 (proj2 (power_poller (firstPollWins 0) exampleBackend 0 4500 2 4200 _ _))).
    + apply Nat.leb_le. vm_compute. reflexivity.
    + apply Nat.ltb_lt. vm_compute. reflexivity.
Defined.

(** C6 as stated fails: a fetch that is given up after 2500ms, every time,
    is replaced by the next poll before its failure is reported; nothing is
    ever published, so no subscriber is handed the none-equivalent. *)
Lemma power_slow_failure_unseen :
  ~ failedFetchYieldsNone None 0 4500
      (values (power (firstPollWins 0) timingOutGetPowerState 0 4500))
      (rejectedAt timingOutGetPowerState).
Proof.
  intros H. specialize (H 0). cbv zeta in H.
  destruct H as (T & _ & Hc).
  - apply Nat.ltb_lt. vm_compute. reflexivity.
  - exists "timeout"%string. reflexivity.
  - apply cached_In in Hc as [t Hin]. vm_compute in Hin. exact Hin.
Qed.

(** * Properties of the Device Link *)

Section DeviceLinkFacts.

Import DeviceLink.

Lemma tickets_enqueue (request : frame) (l : link) :
  tickets (enqueue request l) = tickets l ++ [(length (issued l), request)].
Proof.
  unfold tickets, enqueue. simpl. rewrite imap_app. simpl.
  now rewrite Nat.add_0_r.
Qed.

Lemma oneByOne_finish (done : list (ticket * result)) (t : ticket) (r : result) :
  oneByOne (done ++ [(t, r)]) None = oneByOne done (Some t) ++ [Ended t r].
Proof.
  unfold oneByOne. rewrite flat_map_app. simpl.
  rewrite !app_nil_r, <- app_assoc. reflexivity.
Qed.

Lemma pump_invariant (l : link) :
  List.map fst (completed l) ++ option_list (outstanding l) ++ pending l = tickets l ->
  line l = oneByOne (completed l) (outstanding l) ->
  invariant (pump l).
Proof.
  intros H1 H2. unfold pump.
  destruct (outstanding l) as [t|] eqn:Hout.
  - unfold invariant. rewrite Hout. repeat split; try assumption. discriminate.
  - destruct (pending l) as [|t rest] eqn:Hpend.
    + unfold invariant. rewrite Hout, Hpend. repeat split; assumption.
    + unfold invariant. simpl in *. repeat split.
      * exact H1.
      * rewrite H2. unfold oneByOne. simpl. now rewrite app_nil_r.
      * discriminate.
Qed.

Lemma step_invariant_link (l : link) (i : input) :
  invariant l -> invariant (step l i).
Proof.
  intros [H1 [H2 H3]].
  assert (Hfinish : forall r, invariant (pump (finish r l))).
  { intros r. unfold finish. destruct (outstanding l) as [t|] eqn:Hout.
    - apply pump_invariant; simpl.
      + rewrite map_app. simpl. rewrite <- app_assoc. exact H1.
      + rewrite H2. symmetry. apply oneByOne_finish.
    - apply pump_invariant; [|congruence]. rewrite Hout. exact H1. }
  destruct i; simpl; auto.
  apply pump_invariant.
  - rewrite tickets_enqueue. simpl. rewrite <- H1, <- !app_assoc. reflexivity.
  - exact H2.
Qed.

Lemma idle_invariant : invariant idle.
Proof. repeat split. Qed.

Lemma run_invariant (inputs : list input) : invariant (run inputs).
Proof.
  unfold run. generalize idle idle_invariant.
  induction inputs as [|i inputs IH]; intros l Hl; simpl; [exact Hl|].
  apply IH, step_invariant_link, Hl.
Qed.

Lemma observed_oneByOne (done : list (ticket * result)) (current : option ticket) :
  observed (oneByOne done current) = List.map fst done ++ option_list current.
Proof.
  unfold observed, oneByOne. rewrite flat_map_app.
  f_equal.
  - induction done as [|c done IH]; simpl; [reflexivity|]. now rewrite IH.
  - destruct current; reflexivity.
Qed.

Lemma ended_oneByOne (done : list (ticket * result)) (current : option ticket) :
  ended (oneByOne done current) = done.
Proof.
  unfold ended, oneByOne. rewrite flat_map_app.
  replace (flat_map _ (match current with Some t => [Wrote t] | None => [] end))
    with (@nil (ticket * result)) by (destruct current; reflexivity).
  rewrite app_nil_r.
  induction done as [|[t r] done IH]; simpl; [reflexivity|]. now rewrite IH.
Qed.

(** C7. Whatever the interleaving of callers' requests with responses,
    timeouts and disconnections: at most one exchange is in flight on the
    line; the exchanges run on the line one after the other, each ended
    before the next request is written; the device observes the requests in
    the order they were issued; and the exchanges complete in that order,
    each with the result that ended it on the line. *)
Theorem device_link_fifo (inputs : list input) :
  let l := run inputs in
  inFlight l <= 1
  /\ line l = oneByOne (completed l) (outstanding l)
  /\ observed (line l) = take (length (observed (line l))) (tickets l)
  /\ List.map fst (completed l) = take (length (completed l)) (tickets l)
  /\ ended (line l) = completed l.
Proof.
  intros l. destruct (run_invariant inputs) as [H1 [H2 H3]]. fold l in H1, H2, H3.
  assert (Hobs : observed (line l) = List.map fst (completed l) ++ option_list (outstanding l)).
  { rewrite H2. apply observed_oneByOne. }
  assert (Hend : ended (line l) = completed l).
  { rewrite H2. apply ended_oneByOne. }
  split; [|split; [exact H2|split; [|split; [|exact Hend]]]].
  - unfold inFlight. rewrite Hobs, Hend, length_app, length_map.
    destruct (outstanding l); simpl; lia.
  - rewrite <- H1, app_assoc, <- Hobs. symmetry. apply take_app_length.
  - rewrite <- H1. symmetry. apply take_app_length'. now rewrite length_map.
Qed.

(** Two set-commands issued back to back, before the first is answered. *)
Example back_to_back_commands :
  let l := run [Exchange "set A"; Exchange "set B"; Response "ack A"; Response "ack B"] in
  line l = [Wrote (0, "set A"%string); Ended (0, "set A"%string) (Right "ack A"%string);
            Wrote (1, "set B"%string); Ended (1, "set B"%string) (Right "ack B"%string)]
  /\ completed l = [((0, "set A"%string), Right "ack A"%string);
                    ((1, "set B"%string), Right "ack B"%string)].
Proof. split; reflexivity. Qed.

End DeviceLinkFacts.

(** * Further properties of the power state machine *)

Local Open Scope Z_scope.

Lemma step_unknown (s : PowerStateData) (ev : event) :
  state (step s ev) = UNKNOWN <-> state s = UNKNOWN /\ readingObserved ev = false.
Proof.
  destruct ev as [now [on|]|now targetOn]; simpl.
  - split; [|intros [_ H]; discriminate].
    destruct (inferPowerState_cases now s on) as [[Hsame Htr]|Hres].
    + apply transitioning_spec in Htr. unfold updateFromProjector. simpl.
      rewrite Hsame. intros H. destruct Htr; congruence.
    + unfold updateFromProjector. simpl. rewrite Hres. destruct on; discriminate.
  - tauto.
  - rewrite initiateTransition_cases.
    destruct targetOn, (state s) eqn:Hst; simpl; rewrite ?Hst;
      split; try tauto; try discriminate; intros [H _]; discriminate.
Qed.

Lemma fold_step_unknown (evs : list event) (s : PowerStateData) :
  state (fold_left step evs s) = UNKNOWN
  <-> state s = UNKNOWN /\ existsb readingObserved evs = false.
Proof.
  revert s. induction evs as [|ev evs IH]; intros s; simpl; [tauto|].
  rewrite IH, step_unknown, orb_false_iff. tauto.
Qed.

(** X1. The state is [UNKNOWN] exactly as long as no reading with a value has
    been observed: requests and empty readings leave it [UNKNOWN], and the
    first reading with a value leaves it for good. *)
Theorem unknown_until_first_reading (evs : list event) :
  state (runEvents evs) = UNKNOWN <-> existsb readingObserved evs = false.
Proof.
  unfold runEvents. rewrite fold_step_unknown. simpl. tauto.
Qed.

Lemma step_stable_powerOn (s : PowerStateData) (ev : event) :
  ((state s = ON -> powerOn s = Some true) /\ (state s = OFF -> powerOn s = Some false)) ->
  (state (step s ev) = ON -> powerOn (step s ev) = Some true)
  /\ (state (step s ev) = OFF -> powerOn (step s ev) = Some false).
Proof.
  intros Hs. destruct ev as [now [on|]|now targetOn]; simpl; [|exact Hs|].
  - unfold updateFromProjector. simpl.
    destruct (inferPowerState_cases now s on) as [[Hsame Htr]|Hres].
    + apply transitioning_spec in Htr. rewrite Hsame.
      split; intros H; destruct Htr; congruence.
    + rewrite Hres. destruct on; split; intros H; try reflexivity; discriminate.
  - rewrite initiateTransition_cases.
    destruct targetOn, (state s) eqn:Hst; simpl; rewrite ?Hst;
      try exact Hs; split; discriminate.
Qed.

(** X2. In every snapshot the machine reaches, a stable state agrees with the
    last reading: [ON] comes with [powerOn = true], [OFF] with
    [powerOn = false]. *)
Theorem stable_state_agrees_with_reading (evs : list event) :
  (state (runEvents evs) = ON -> powerOn (runEvents evs) = Some true)
  /\ (state (runEvents evs) = OFF -> powerOn (runEvents evs) = Some false).
Proof.
  unfold runEvents.
  assert (H0 : (state initialState = ON -> powerOn initialState = Some true)
               /\ (state initialState = OFF -> powerOn initialState = Some false))
    by (split; discriminate).
  revert H0. generalize initialState.
  induction evs as [|ev evs IH]; intros s Hs; simpl; [exact Hs|].
  apply IH, step_stable_powerOn, Hs.
Qed.

Lemma stable_state_agrees_with_reading_witness :
  state (runEvents [ObserveReading 5 (Some true)]) = ON
  /\ powerOn (runEvents [ObserveReading 5 (Some true)]) = Some true.
Proof.
  split; [reflexivity|].
  apply (proj1 (stable_state_agrees_with_reading [ObserveReading 5 (Some true)])).
  reflexivity.
Defined.

(** X3. Observing the same reading twice at the same instant changes nothing
    more than observing it once. *)
Theorem updateFromProjector_idempotent (now : Z) (s : PowerStateData)
    (reading : option bool) :
  updateFromProjector now (updateFromProjector now s reading) reading
  = updateFromProjector now s reading.
Proof.
  destruct reading as [on|]; [|reflexivity].
  destruct s as [p st t]. unfold updateFromProjector, inferPowerState. simpl.
  destruct st; simpl;
    repeat match goal with
           | |- context [number_ltb ?a ?b] =>
               let E := fresh "E" in destruct (number_ltb a b) eqn:E; simpl
           end;
    destruct on; simpl; rewrite ?E; try reflexivity; congruence.
Qed.

(** ** Thresholds and the countdown, in milliseconds *)

Lemma number_ltb_seconds (x d : Z) :
  number_ltb (Fin (inject_Z x / 1000)) (inject_Z d) = (x <? d * 1000).
Proof.
  unfold number_ltb, Qle_bool, Qdiv, Qmult, Qinv, inject_Z. cbn.
  change (Z.pos (1 * 1000)) with 1000.
  destruct (Z.leb_spec (d * 1000) (x * 1 * 1)), (Z.ltb_spec x (d * 1000));
    simpl; try reflexivity; lia.
Qed.

Lemma Qceiling_countdown (d x : Z) :
  Qceiling (inject_Z d - inject_Z x / 1000) = d - x / 1000.
Proof.
  unfold Qceiling, Qfloor, Qminus, Qplus, Qopp, Qdiv, Qmult, Qinv, inject_Z. cbn.
  change (Z.pos (1 * 1000)) with 1000. change (Z.pos (1 * (1 * 1000))) with 1000.
  replace (- (d * 1000 + - (x * 1) * 1)) with (x + - d * 1000) by lia.
  rewrite Z.div_add by lia. lia.
Qed.

Lemma held_until_threshold (now t : Z) (s : PowerStateData) (on : bool) :
  transitionStartTime s = Some t -> t <> 0 ->
  (state s = WARMING_UP ->
     (state (updateFromProjector now s (Some on)) = WARMING_UP <-> now - t < 30000))
  /\ (state s = COOLING_DOWN ->
        (state (updateFromProjector now s (Some on)) = COOLING_DOWN <-> now - t < 90000)).
Proof.
  intros Ht Hnz.
  assert (Helapsed : calculateTimeSinceTransition now (transitionStartTime s)
                     = Fin (inject_Z (now - t) / 1000)).
  { rewrite Ht. simpl. destruct (Z.eqb_spec t 0); congruence. }
  unfold updateFromProjector, inferPowerState. cbn [O.getOrElse O.map O.fromNullable state].
  rewrite Helapsed.
  change WARMING_UP_TIME_SECONDS with (inject_Z 30).
  change COOLING_DOWN_TIME_SECONDS with (inject_Z 90).
  rewrite !number_ltb_seconds.
  split; intros Hst; rewrite Hst; simpl.
  - destruct (Z.ltb_spec (now - t) (30 * 1000)); destruct on; split;
      intros; try reflexivity; try discriminate; lia.
  - destruct (Z.ltb_spec (now - t) (90 * 1000)); destruct on; split;
      intros; try reflexivity; try discriminate; lia.
Qed.

(** X4. A transition that started at [t] (other than timestamp [0]) is held
    against any reading while fewer than 30000ms (warming up) or 90000ms
    (cooling down) have passed, and resolved from then on. *)
Theorem transition_held_until_threshold (now t : Z) (s : PowerStateData) (on : bool) :
  transitionStartTime s = Some t -> t <> 0 ->
  (state s = WARMING_UP ->
     (state (updateFromProjector now s (Some on)) = WARMING_UP <-> now - t < 30000))
  /\ (state s = COOLING_DOWN ->
        (state (updateFromProjector now s (Some on)) = COOLING_DOWN <-> now - t < 90000)).
Proof. apply held_until_threshold. Qed.


Lemma transition_held_until_threshold_witness :
  let s := {| powerOn := Some true; state := WARMING_UP; transitionStartTime := Some 1000 |} in
  transitionStartTime s = Some 1000 /\ 1000 <> 0 /\ state s = WARMING_UP
  /\ (state (updateFromProjector 30999 s (Some false)) = WARMING_UP <-> 30999 - 1000 < 30000).
Proof.
  split; [reflexivity|]. split; [lia|]. split; [reflexivity|].
  apply (proj1 (transition_held_until_threshold 30999 1000
                  {| powerOn := Some true; state := WARMING_UP;
                     transitionStartTime := Some 1000 |} false eq_refl ltac:(lia))).
  reflexivity.
Defined.

Lemma remaining_closed_form (now t : Z) (s : PowerStateData) :
  transitionStartTime s = Some t -> t <> 0 ->
  calculateRemainingSeconds now s
  = Fin (inject_Z (Z.max 0 (totalSeconds (state s) - (now - t) / 1000))).
Proof.
  intros Ht Hnz.
  rewrite calculateRemainingSeconds_refines by congruence.
  unfold Spec.remainingSeconds. rewrite Ht.
  replace (Spec.phaseDuration (state s)) with (inject_Z (totalSeconds (state s)))
    by (destruct (state s); reflexivity).
  now rewrite Qceiling_countdown.
Qed.

(** X5. While a timer is set (at a start time [t] other than timestamp [0]),
    the remaining seconds are the phase's length minus the whole seconds
    elapsed, and never below zero: the count drops by one at each full
    second. *)
Theorem remaining_seconds_closed_form (now t : Z) (s : PowerStateData) :
  transitionStartTime s = Some t -> t <> 0 ->
  calculateRemainingSeconds now s
  = Fin (inject_Z (Z.max 0 (totalSeconds (state s) - (now - t) / 1000))).
Proof. apply remaining_closed_form. Qed.


Lemma remaining_seconds_closed_form_witness :
  calculateRemainingSeconds 30999
    {| powerOn := Some true; state := WARMING_UP; transitionStartTime := Some 1000 |}
  = Fin 1.
Proof.
  apply (remaining_seconds_closed_form 30999 1000
           {| powerOn := Some true; state := WARMING_UP; transitionStartTime := Some 1000 |}
           eq_refl ltac:(lia)).
Defined.

Lemma Fin_inject_Z_inj (a b : Z) : Fin (inject_Z a) = Fin (inject_Z b) -> a = b.
Proof. intros H. now injection H. Qed.

(** X6. The countdown and the hold agree: in a transitional state whose timer
    started at a time other than timestamp [0], a reading is held back exactly
    while the remaining seconds are not zero. *)
Theorem held_while_countdown_runs (now t : Z) (s : PowerStateData) (on : bool) :
  transitionStartTime s = Some t -> t <> 0 ->
  state s = WARMING_UP \/ state s = COOLING_DOWN ->
  (state (updateFromProjector now s (Some on)) = state s
   <-> calculateRemainingSeconds now s <> Fin 0).
Proof.
  intros Ht Hnz Hst.
  rewrite (remaining_closed_form now t s Ht Hnz).
  destruct (held_until_threshold now t s on Ht Hnz) as [Hw Hc].
  pose proof (Z.div_mod (now - t) 1000 ltac:(lia)) as Hdiv.
  pose proof (Z.mod_pos_bound (now - t) 1000 ltac:(lia)) as Hmod.
  change (Fin 0) with (Fin (inject_Z 0)).
  destruct Hst as [Hst|Hst]; rewrite Hst in *; simpl.
  - rewrite (Hw eq_refl). split.
    + intros H Heq. apply Fin_inject_Z_inj in Heq. lia.
    + intros H. destruct (Z.lt_ge_cases (now - t) 30000) as [|Hge]; [assumption|].
      exfalso. apply H. f_equal. f_equal. lia.
  - rewrite (Hc eq_refl). split.
    + intros H Heq. apply Fin_inject_Z_inj in Heq. lia.
    + intros H. destruct (Z.lt_ge_cases (now - t) 90000) as [|Hge]; [assumption|].
      exfalso. apply H. f_equal. f_equal. lia.
Qed.

Lemma held_while_countdown_runs_witness :
  let s := {| powerOn := Some false; state := COOLING_DOWN;
              transitionStartTime := Some 1000 |} in
  state (updateFromProjector 90999 s (Some false)) = state s
  <-> calculateRemainingSeconds 90999 s <> Fin 0.
Proof.
  apply (held_while_countdown_runs 90999 1000
           {| powerOn := Some false; state := COOLING_DOWN;
              transitionStartTime := Some 1000 |} false eq_refl ltac:(lia)).
  right. reflexivity.
Defined.

(** X7. The remaining seconds are always a whole number that is not negative,
    never an infinity; and while the clock has not gone back behind the start
    of the transition they are at most 90. *)
Theorem remaining_seconds_bounds (now : Z) (s : PowerStateData) :
  exists z, calculateRemainingSeconds now s = Fin (inject_Z z)
            /\ 0 <= z
            /\ ((forall t, transitionStartTime s = Some t -> t <= now) -> z <= 90).
Proof.
  destruct (transitionStartTime s) as [t|] eqn:Ht.
  - destruct (Z.eq_dec t 0) as [->|Hnz].
    + exists 0. unfold calculateRemainingSeconds. rewrite Ht. simpl.
      split; [reflexivity|]. split; lia.
    + exists (Z.max 0 (totalSeconds (state s) - (now - t) / 1000)).
      split; [now apply remaining_closed_form|].
      split; [lia|]. intros Hle. specialize (Hle t eq_refl).
      assert (0 <= (now - t) / 1000) by (apply Z.div_pos; lia).
      destruct (state s); simpl; lia.
  - exists 0. rewrite calculateRemainingSeconds_none by assumption.
    split; [reflexivity|]. split; lia.
Qed.

(** X8. A request cannot restart a transition: once a request has been
    honoured, any further request, at any time and for either target, leaves
    the snapshot as it is; and repeating a request that was not honoured does
    nothing either. *)
Theorem request_never_restarts_transition (now now' : Z) (s : PowerStateData)
    (targetOn targetOn' : bool) :
  initiateTransition now' (initiateTransition now s targetOn) targetOn
  = initiateTransition now s targetOn
  /\ (initiateTransition now s targetOn = s
      \/ initiateTransition now' (initiateTransition now s targetOn) targetOn'
         = initiateTransition now s targetOn).
Proof.
  rewrite !initiateTransition_cases.
  destruct s as [p st t]. destruct targetOn, targetOn', st; simpl; auto.
Qed.

(** X9. Whatever the history, a countdown is shown only during a transition:
    outside [WARMING_UP] and [COOLING_DOWN] the remaining seconds are zero. *)
Theorem countdown_only_while_transitioning (evs : list event) (now : Z) :
  transitioning (runEvents evs) = true
  \/ calculateRemainingSeconds now (runEvents evs) = Fin 0.
Proof.
  destruct (transitioning (runEvents evs)) eqn:Htr; [now left|right].
  apply calculateRemainingSeconds_none.
  destruct (transitionStartTime (runEvents evs)) as [t|] eqn:Ht; [|reflexivity].
  exfalso.
  assert (Hset : transitionStartTime (runEvents evs) <> None) by congruence.
  pose proof (fold_step_invariant evs initialState initialState_invariant) as Hinv.
  apply (proj1 Hinv) in Hset. apply (proj2 (transitioning_spec _)) in Hset.
  unfold runEvents in Htr. congruence.
Qed.

(** * Further properties of the routes *)

(** X10. GET /api/power-state does not take a failed or empty device read for
    "off": the snapshot stays as it was, and the request is still answered
    200 with that snapshot and its countdown. *)
Theorem power_state_route_keeps_snapshot_without_reading (env : Env) (w : Server) :
  E.getOrElse (fun _ => None) (device env _ getPowerStatus) = None ->
  manager (snd (run env getPowerStateRoute w)) = manager w
  /\ fst (run env getPowerStateRoute w)
     = Returned {| body := {| error := None;
                              data := Some (enrichWithRemainingSeconds
                                              (clock env (S (clockReads w))) (manager w)) |};
                   status := 200 |}.
Proof.
  intros H. rewrite run_getPowerStateRoute. cbv zeta. rewrite H. split; reflexivity.
Qed.

Lemma power_state_route_keeps_snapshot_without_reading_witness :
  let env := {| clock := fun _ => 7000; device := failingDevice |} in
  let w := {| manager := snapshotOn; clockReads := 0; issuedLog := [] |} in
  manager (snd (run env getPowerStateRoute w)) = snapshotOn.
Proof.
  apply (power_state_route_keeps_snapshot_without_reading
           {| clock := fun _ => 7000; device := failingDevice |}
           {| manager := snapshotOn; clockReads := 0; issuedLog := [] |}).
  reflexivity.
Defined.

Lemma postBrightnessRoute_manager (env : Env) (w : Server) (body : json) :
  manager (snd (run env (postBrightnessRoute body) w)) = manager w
  /\ (issuedLog (snd (run env (postBrightnessRoute body) w)) = issuedLog w
      \/ exists cmd, issuedLog (snd (run env (postBrightnessRoute body) w))
                     = issuedLog w ++ [(cmd, manager w)]).
Proof.
  assert (Hcase : body = JNull \/ body <> JNull)
    by (destruct body; [left; reflexivity|right; discriminate..]).
  destruct Hcase as [->|Hbody].
  - rewrite run_postBrightnessRoute_null. simpl. auto.
  - rewrite (run_postBrightnessRoute env w body Hbody).
    destruct (truthy (field body "direction")).
    + rewrite run_handleTask. simpl. eauto.
    + destruct (bool_decide (field body "value" <> None)).
      * rewrite run_handleTask. simpl. eauto.
      * simpl. auto.
Qed.

(** X11. POST /api/brightness never touches the power snapshot and sends at
    most one command to the device, whatever the request body ([null]
    included) and whatever the device answers. *)
Theorem brightness_route_leaves_power_state (env : Env) (w : Server) (body : json) :
  manager (snd (run env (postBrightnessRoute body) w)) = manager w
  /\ (issuedLog (snd (run env (postBrightnessRoute body) w)) = issuedLog w
      \/ exists cmd, issuedLog (snd (run env (postBrightnessRoute body) w))
                     = issuedLog w ++ [(cmd, manager w)]).
Proof. apply postBrightnessRoute_manager. Qed.

Lemma serve_step (env : Env) (w : Server) (req : request) :
  manager (serve env w req) = manager w
  \/ exists ev, manager (serve env w req) = step (manager w) ev.
Proof.
  destruct req as [|on|body]; unfold serve.
  - right. rewrite run_getPowerStateRoute. simpl.
    exists (ObserveReading (clock env (clockReads w))
              (E.getOrElse (fun _ => None) (device env _ getPowerStatus))).
    reflexivity.
  - right. rewrite run_postPowerRoute. simpl.
    exists (RequestTransition (clock env (clockReads w)) on). reflexivity.
  - left. apply postBrightnessRoute_manager.
Qed.

(** X12. Whatever requests the server answers, in whatever environments, the
    snapshot it holds is one the state machine reaches from the initial
    snapshot through its two entry points; so the timer is set exactly in the
    two transitional states on the running server too. *)
Theorem server_snapshot_reachable (reqs : list (Env * request)) :
  reachable (manager (serveAll reqs))
  /\ timer_invariant (manager (serveAll reqs)).
Proof.
  assert (H : reachable (manager (serveAll reqs))).
  { unfold serveAll.
    assert (H0 : reachable (manager startServer)) by constructor.
    revert H0. generalize startServer.
    induction reqs as [|[env req] reqs IH]; intros w Hw; simpl; [exact Hw|].
    apply IH. destruct (serve_step env w req) as [->|[ev ->]]; [exact Hw|].
    now constructor. }
  split; [exact H|]. apply reachable_invariant, H.
Qed.

(** X13. A power-on request accepted at some time (other than timestamp [0])
    masks the device for the warm-up: a GET /api/power-state whose clock
    reads less than 30000ms later answers [WARMING_UP], whatever the device
    reports or fails to report. *)
Theorem warm_up_masks_device (env : Env) (w : Server) :
  state (manager w) = OFF ->
  clock env (clockReads w) <> 0 ->
  clock env (S (clockReads w)) - clock env (clockReads w) < 30000 ->
  let w1 := snd (run env (postPowerRoute true) w) in
  let res := run env getPowerStateRoute w1 in
  state (manager (snd res)) = WARMING_UP
  /\ exists info, fst res = Returned {| body := {| error := None; data := Some info |};
                                        status := 200 |}
                  /\ state (snapshot info) = WARMING_UP.
Proof.
  intros Hoff Hnz Hlt w1 res. subst res w1.
  rewrite run_postPowerRoute. cbv zeta. cbn [snd].
  rewrite run_getPowerStateRoute. cbv zeta. cbn [fst snd manager clockReads].
  rewrite initiateTransition_cases, Hoff.
  set (started := {| powerOn := Some true; state := WARMING_UP;
                     transitionStartTime := Some (clock env (clockReads w)) |}).
  assert (Hheld : forall reading,
            state (updateFromProjector (clock env (S (clockReads w))) started reading)
            = WARMING_UP).
  { intros [on|]; [|reflexivity].
    apply (proj1 (held_until_threshold
                    (clock env (S (clockReads w))) (clock env (clockReads w))
                    started on eq_refl Hnz) eq_refl).
    exact Hlt. }
  split; [apply Hheld|].
  eexists. split; [reflexivity|]. simpl. apply Hheld.
Qed.

Lemma warm_up_masks_device_witness :
  let env := {| clock := fun n => 1000 + Z.of_nat n * 2000; device := failingDevice |} in
  let w := {| manager := snapshotOff; clockReads := 0; issuedLog := [] |} in
  state (manager (snd (run env getPowerStateRoute (snd (run env (postPowerRoute true) w)))))
  = WARMING_UP.
Proof.
  apply (warm_up_masks_device
           {| clock := fun n => 1000 + Z.of_nat n * 2000; device := failingDevice |}
           {| manager := snapshotOff; clockReads := 0; issuedLog := [] |}).
  - reflexivity.
  - simpl. lia.
  - simpl. lia.
Defined.

(** * Further properties of the streams *)

Local Open Scope nat_scope.

Section PowerStreamMore.

Variable tie : nat -> nat -> bool.
Variable getPowerState : Async PowerStateData.

Lemma power_In (t0 h T : nat) (v : option PowerStateData) :
  In (T, v) (values (power tie getPowerState t0 h))
  <-> exists k,
        let tick := t0 + k * POLL_INTERVAL in
        T = tick + fst (getPowerState tick)
        /\ T < h
        /\ (T < tick + POLL_INTERVAL
            \/ T = tick + POLL_INTERVAL /\ tie tick (tick + POLL_INTERVAL) = true)
        /\ v = match snd (getPowerState tick) with
               | Right s => Some s
               | Left _ => None
               end.
Proof.
  rewrite power_values. unfold view. rewrite in_map_iff. split.
  - intros [[T' r] [Heq Hin]]. simpl in Heq. injection Heq as <- <-.
    apply pollingLoop_In in Hin as (k & HT & Hv & Hh & Hnext);
      [|apply tryCatch_neverRejects].
    exists k. cbv zeta in *. unfold fetchPowerState, TE.tryCatch in *.
    destruct (getPowerState (t0 + k * POLL_INTERVAL)) as [l [e|s]]; simpl in *;
      injection Hv as <-; auto.
  - intros (k & HT & Hh & Hnext & Hv). cbv zeta in *.
    exists (T, match snd (getPowerState (t0 + k * POLL_INTERVAL)) with
               | Right s => Right s
               | Left e => Left ("Failed to fetch power state: " +:+ e)
               end).
    split.
    + simpl. f_equal. rewrite Hv.
      destruct (snd (getPowerState (t0 + k * POLL_INTERVAL))); reflexivity.
    + apply pollingLoop_In; [apply tryCatch_neverRejects|].
      exists k. cbv zeta. unfold fetchPowerState, TE.tryCatch.
      destruct (getPowerState (t0 + k * POLL_INTERVAL)) as [l [e|s]]; simpl in *; auto.
Qed.

(** X14. The power stream delivers exactly the polls that end in time: a
    value is delivered at time [T] if and only if some poll, started a whole
    number of periods after the subscription, ends at [T], before the end of
    the observation and either before the next tick or at the very instant of
    the next tick with the tie going to the poll; the value is the snapshot
    it fetched, or none if the fetch failed. *)
Theorem power_delivers_exactly_timely_polls (t0 h T : nat) (v : option PowerStateData) :
  In (T, v) (values (power tie getPowerState t0 h))
  <-> exists k,
        let tick := t0 + k * POLL_INTERVAL in
        T = tick + fst (getPowerState tick)
        /\ T < h
        /\ (T < tick + POLL_INTERVAL
            \/ T = tick + POLL_INTERVAL /\ tie tick (tick + POLL_INTERVAL) = true)
        /\ v = match snd (getPowerState tick) with
               | Right s => Some s
               | Left _ => None
               end.
Proof. apply power_In. Qed.

(** X15. While a fetch of the power state that takes a whole period or
    longer is under way, the stream delivers nothing: throughout the period
    of that poll it holds what it held when the poll started, whether the
    fetch succeeds or fails in the end, and however ties are resolved. *)
Theorem stream_unchanged_during_late_poll (t0 h k T : nat) :
  POLL_INTERVAL <= fst (getPowerState (t0 + k * POLL_INTERVAL)) ->
  t0 + k * POLL_INTERVAL <= T < t0 + k * POLL_INTERVAL + POLL_INTERVAL ->
  cached (values (power tie getPowerState t0 h)) T
  = cached (values (power tie getPowerState t0 h)) (t0 + k * POLL_INTERVAL).
Proof.
  intros Hlate HT. apply cached_stable. intros [Te ve] He.
  apply power_In in He as (j & HTe & _ & Hnext & _). cbv zeta in *. simpl.
  pose proof POLL_INTERVAL_pos as Hp.
  destruct (decide (j = k)) as [->|Hne]; [lia|].
  split; intros Hle; [|lia].
  destruct (decide (j < k)); [nia|].
  assert (k < j) by lia. nia.
Qed.

End PowerStreamMore.

(** The first poll is started before the timer of the loop is set: where
    timers fire in the order they were set, a first fetch that takes exactly
    one period is delivered, and later ones are not. *)
Example power_first_poll_wins_tie :
  values (power (firstPollWins 0) periodLongGetPowerState 0 4500)
  = [(2000, Some snapshotOff)].
Proof. vm_compute. reflexivity. Qed.

(** What the catch in [fetchPowerState] and [createPollingTask] guards
    against: a rejection that reaches [switchMap] ends the loop, and the
    later ticks deliver nothing. *)
Example uncaught_rejection_ends_loop :
  pollingLoop tieLost rejectedOnce 0 4500
  = {| values := [(10, 1)]; failure := Some (2010, "ECONNRESET"%string) |}.
Proof. vm_compute. reflexivity. Qed.

Lemma stream_unchanged_during_late_poll_witness :
  POLL_INTERVAL <= fst (slowGetPowerState (0 + 1 * POLL_INTERVAL))
  /\ cached (values (power (firstPollWins 0) slowGetPowerState 0 4500)) 3000
     = Some (Some snapshotOn).
Proof.
  split; [apply Nat.leb_le; vm_compute; reflexivity|].
  etransitivity.
  - apply (stream_unchanged_during_late_poll (firstPollWins 0) slowGetPowerState 0 4500 1).
    + apply Nat.leb_le. vm_compute. reflexivity.
    + split; [apply Nat.leb_le|apply Nat.ltb_lt]; vm_compute; reflexivity.
  - vm_compute. reflexivity.
Defined.

(** ** The on/off signal *)

Lemma distinctFrom_changes (previous : option bool) (evs : list (nat * bool)) :
  changes previous (Rx.distinctFrom previous evs).
Proof.
  revert previous. induction evs as [|[t v] evs IH]; intros previous; simpl; [exact I|].
  destruct (bool_decide_reflect (previous = Some v)) as [Heq|Hne].
  - apply IH.
  - simpl. split; [exact Hne|apply IH].
Qed.

Lemma changes_lookup (previous : option bool) (evs : list (nat * bool)) (i : nat)
    (e e' : nat * bool) :
  changes previous evs -> evs !! i = Some e -> evs !! S i = Some e' -> snd e' <> snd e.
Proof.
  revert previous i. induction evs as [|e0 evs IH]; intros previous i Hc Hi Hi'; [discriminate|].
  destruct Hc as [_ Hc]. destruct i as [|i].
  - simpl in Hi. injection Hi as ->.
    destruct evs as [|e1 evs]; [discriminate|]. simpl in Hi'. injection Hi' as ->.
    destruct Hc as [Hne _]. congruence.
  - simpl in Hi, Hi'. exact (IH _ _ Hc Hi Hi').
Qed.

Lemma distinctFrom_filter (previous : option bool) (lo h T : nat) (evs : list (nat * bool)) :
  timeline lo evs h ->
  filter (fun e => fst e <= T) (Rx.distinctFrom previous evs)
  = Rx.distinctFrom previous (filter (fun e => fst e <= T) evs).
Proof.
  revert previous lo. induction evs as [|[t v] evs IH]; intros previous lo Htl; [reflexivity|].
  destruct Htl as (Hlo & Hlt & Htl). simpl in Hlo, Hlt, Htl.
  destruct (decide (t <= T)) as [Hle|Hgt].
  - rewrite (filter_cons_True _ (t, v)) by exact Hle. simpl.
    destruct (bool_decide (previous = Some v)).
    + eapply IH, Htl.
    + rewrite filter_cons_True by exact Hle. f_equal. eapply IH, Htl.
  - assert (Hlater : forall (l : list (nat * bool)),
              timeline t l h -> filter (fun e : nat * bool => fst e <= T) l = []).
    { intros l Hl. apply filter_later. apply timeline_Forall in Hl.
      eapply Forall_impl; [exact Hl|]. simpl. intros; lia. }
    rewrite (filter_cons_False _ (t, v)) by exact Hgt.
    rewrite (Hlater evs Htl). simpl.
    apply Hlater.
    apply (distinctFrom_timeline previous t h ((t, v) :: evs)).
    simpl. split; [lia|]. split; [lia|exact Htl].
Qed.

Lemma distinctFrom_last (previous : option bool) (evs : list (nat * bool)) :
  from_option Some previous (last (List.map snd (Rx.distinctFrom previous evs)))
  = from_option Some previous (last (List.map snd evs)).
Proof.
  revert previous. induction evs as [|[t v] evs IH]; intros previous; [reflexivity|].
  simpl. destruct (bool_decide_reflect (previous = Some v)) as [Heq|Hne].
  - rewrite IH, last_cons. destruct (last (List.map snd evs)); simpl; congruence.
  - simpl. rewrite !last_cons. specialize (IH (Some v)).
    destruct (last (List.map snd (Rx.distinctFrom (Some v) evs))),
      (last (List.map snd evs)); simpl in *; congruence.
Qed.

Lemma distinctFrom_cached (lo h T : nat) (evs : list (nat * bool)) :
  timeline lo evs h -> cached (Rx.distinctFrom None evs) T = cached evs T.
Proof.
  intros Htl. unfold cached. rewrite (distinctFrom_filter None lo h T evs Htl).
  pose proof (distinctFrom_last None (filter (fun e => fst e <= T) evs)) as H.
  destruct (last (List.map snd (Rx.distinctFrom None (filter (fun e => fst e <= T) evs)))),
    (last (List.map snd (filter (fun e => fst e <= T) evs))); simpl in H; congruence.
Qed.

Section SignalMore.

Variable tie : nat -> nat -> bool.
Variable getPowerState : Async PowerStateData.

(** X16. The on/off signal delivers a value only when it differs from the one
    before: consecutive values of the signal are each other's negation. *)
Theorem signal_alternates (t0 h i t t' : nat) (b b' : bool) :
  values (isProjectorOn tie getPowerState t0 h) !! i = Some (t, b) ->
  values (isProjectorOn tie getPowerState t0 h) !! S i = Some (t', b') ->
  b' = negb b.
Proof.
  intros Hi Hi'. rewrite isProjectorOn_values in Hi, Hi'.
  pose proof (changes_lookup None _ i (t, b) (t', b')
                (distinctFrom_changes None _) Hi Hi') as Hne.
  simpl in Hne. destruct b, b'; try reflexivity; congruence.
Qed.

(** X17. De-duplicating loses nothing: at every instant the signal holds what
    the power stream's latest snapshot says, [true] exactly for a snapshot
    that is [ON] with [powerOn = true] (and no value before the first
    snapshot). *)
Theorem signal_tracks_power (t0 h T : nat) :
  cached (values (isProjectorOn tie getPowerState t0 h)) T
  = signalOf <$> cached (values (power tie getPowerState t0 h)) T.
Proof.
  rewrite isProjectorOn_values, <- cached_view.
  destruct (le_lt_dec t0 h) as [Hle|Hgt].
  - apply (distinctFrom_cached t0 h). apply timeline_view, power_orderly, Hle.
  - assert (Hempty : values (power tie getPowerState t0 h) = []).
    { rewrite power_values, pollingLoop_values. unfold ticks, Rx.startWith.
      destruct (Nat.ltb_spec t0 h); [lia|reflexivity]. }
    rewrite Hempty. reflexivity.
Qed.

(** X18. A conditional poller delivers nothing before the signal has
    delivered its first value: until then a subscriber is handed no value at
    all, not even none. *)
Theorem conditional_poller_silent_before_signal {T} (task : TaskEither (option T))
    (t0 h U : nat) :
  t0 <= h ->
  (forall e, In e (values (isProjectorOn tie getPowerState t0 h)) -> U < fst e) ->
  cached (values (createConditionalPoller tie (isProjectorOn tie getPowerState) task t0 h)) U
  = None.
Proof.
  intros Hle Hsilent.
  change (cached ([] ++ values (createConditionalPoller tie
                                  (isProjectorOn tie getPowerState) task t0 h)) U
          = None).
  rewrite cached_app_later; [reflexivity|].
  apply List.Forall_forall. intros e He.
  rewrite (conditional_values tie _ task (isProjectorOn_unfailing tie getPowerState)) in He.
  apply switchAll_In in He as (i & t & inner & Hi & Hin).
  rewrite lookup_view in Hi.
  destruct (values (isProjectorOn tie getPowerState t0 h) !! i) as [[t1 b]|] eqn:Hlook;
    [|discriminate].
  simpl in Hi. injection Hi as <- <-.
  rewrite horizon_view in Hin.
  pose proof (isProjectorOn_orderly tie getPowerState t0 h Hle) as Htl.
  destruct (timeline_lookup _ _ _ _ _ Htl Hlook) as (_ & Hend & _).
  destruct (horizon_bounds tie _ _ _ _ _ Htl Hlook) as [Hhz _].
  cbn [fst] in Hend.
  pose proof (branch_orderly tie task b t1
                (horizon tie (values (isProjectorOn tie getPowerState t0 h)) i h)
                ltac:(lia)) as Hbranch.
  apply timeline_Forall in Hbranch. rewrite List.Forall_forall in Hbranch.
  specialize (Hbranch e Hin).
  assert (Hfirst : U < t1).
  { apply (Hsilent (t1, b)). apply list_elem_of_In. eapply list_elem_of_lookup_2, Hlook. }
  lia.
Qed.

End SignalMore.

Lemma signal_alternates_witness :
  values (isProjectorOn tieLost exampleGetPowerState 0 4500) !! 0 = Some (10, true)
  /\ values (isProjectorOn tieLost exampleGetPowerState 0 4500) !! 1 = Some (4010, false)
  /\ false = negb true.
Proof.
  split; [reflexivity|]. split; [reflexivity|].
  apply (signal_alternates tieLost exampleGetPowerState 0 4500 0 10 4010); reflexivity.
Defined.

Lemma conditional_poller_silent_before_signal_witness :
  0 <= 4500
  /\ cached (values (createConditionalPoller tieLost (isProjectorOn tieLost exampleGetPowerState)
                       (createPollingTask exampleGetTemperature "Failed to fetch temperature")
                       0 4500)) 9
     = None.
Proof.
  split; [lia|].
  apply (conditional_poller_silent_before_signal tieLost exampleGetPowerState).
  - lia.
  - intros e He. vm_compute in He.
    destruct He as [<-|[<-|[]]]; apply Nat.ltb_lt; vm_compute; reflexivity.
Defined.

(** * Completing and starting transitions *)

Local Open Scope Z_scope.

(** X19. Once the phase's time has passed (30000ms warming up, 90000ms
    cooling down, from a start other than timestamp [0]), the next reading
    with a value completes the transition: the state is [ON] or [OFF] as the
    reading says, whichever transition it was, and the timer is cleared. *)
Theorem transition_completes (now t : Z) (s : PowerStateData) (on : bool) :
  transitionStartTime s = Some t -> t <> 0 ->
  (state s = WARMING_UP /\ 30000 <= now - t)
  \/ (state s = COOLING_DOWN /\ 90000 <= now - t) ->
  updateFromProjector now s (Some on)
  = {| powerOn := Some on; state := if on then ON else OFF; transitionStartTime := None |}.
Proof.
  intros Ht Hnz Hphase.
  destruct (held_until_threshold now t s on Ht Hnz) as [Hw Hc].
  destruct (inferPowerState_cases now s on) as [[Hsame _]|Hres].
  - exfalso. destruct Hphase as [[Hst Hge]|[Hst Hge]].
    + assert (now - t < 30000); [|lia].
      apply (Hw Hst). unfold updateFromProjector. simpl. congruence.
    + assert (now - t < 90000); [|lia].
      apply (Hc Hst). unfold updateFromProjector. simpl. congruence.
  - unfold updateFromProjector. cbn [O.getOrElse O.map O.fromNullable].
    rewrite Hres. f_equal.
    unfold shouldResetTransition.
    destruct Hphase as [[-> _]|[-> _]]; destruct on; reflexivity.
Qed.

Lemma transition_completes_witness :
  updateFromProjector 31000
    {| powerOn := Some true; state := WARMING_UP; transitionStartTime := Some 1000 |}
    (Some false)
  = {| powerOn := Some false; state := OFF; transitionStartTime := None |}.
Proof.
  apply (transition_completes 31000 1000
           {| powerOn := Some true; state := WARMING_UP; transitionStartTime := Some 1000 |}
           false eq_refl ltac:(lia)).
  left. split; [reflexivity|lia].
Defined.

(** X20. A reading never starts a transition: if the snapshot after an
    observation is warming up or cooling down, it was already in that very
    state, with the same timer. Only a request starts one. *)
Theorem reading_never_starts_transition (now : Z) (s : PowerStateData)
    (reading : option bool) :
  transitioning (updateFromProjector now s reading) = true ->
  state (updateFromProjector now s reading) = state s
  /\ transitionStartTime (updateFromProjector now s reading) = transitionStartTime s.
Proof.
  destruct reading as [on|]; [|auto].
  unfold updateFromProjector. cbn [O.getOrElse O.map O.fromNullable].
  destruct (inferPowerState_cases now s on) as [[Hsame _]|Hres].
  - rewrite Hsame. unfold transitioning, shouldResetTransition. simpl.
    rewrite PowerState_eqb_refl. auto.
  - rewrite Hres. unfold transitioning. simpl. destruct on; discriminate.
Qed.

Lemma reading_never_starts_transition_witness :
  let s := {| powerOn := Some true; state := WARMING_UP; transitionStartTime := Some 1000 |} in
  state (updateFromProjector 2000 s (Some false)) = WARMING_UP
  /\ transitionStartTime (updateFromProjector 2000 s (Some false)) = Some 1000.
Proof.
  apply (reading_never_starts_transition 2000
           {| powerOn := Some true; state := WARMING_UP; transitionStartTime := Some 1000 |}
           (Some false)).
  reflexivity.
Defined.

